(** * Disposable-income model (M3 Challenge 2026, Q1): tax and expenditure engines

    A shallow embedding of [constants.py], [tax_calculator.py],
    [expenditure_model.py] and [disposable_income.py], and the properties the
    specification states about them.

    Numbers.  Python's [float] amounts are read as exact rationals ([Qc],
    canonical fractions with Leibniz equality): [+], [-], [*] are exact,
    [/] raises [ZeroDivisionError] on a zero divisor, [round(x, n)] rounds the
    exact value half-to-even at [n] decimals.  The built-in power [x ** y] has
    no rational counterpart and is a parameter [pow] of the expenditure
    engine; the two laws of it that proofs rely on are stated where used.
    [pow] is total: the [OverflowError] of a float power whose result
    exceeds the float range (a salary some 10^250 times the reference
    income) is outside this reading.

    Binary floats differ from this reading where an exact value sits on a
    decimal tie: there the side [round] takes depends on the representation
    error of its argument.  Returned amounts are therefore stated with
    [rounded_to] (a multiple of the unit within half a unit), and otherwise
    through what rounding keeps on either reading: order, sign, the half-unit
    bound, and values that are no tie.

    Errors.  Every [raise] of the source is a [Raise] of the [result] monad;
    a dictionary subscript [d[k]] on a missing key raises [KeyError]. *)

From Stdlib Require Import ZArith QArith Qcanon Qround Lqa Lia.
From stdpp Require Import base numbers strings gmap list.

Local Open Scope Qc_scope.
Arguments Q2Qc _%_Q.

(* ===================================================================== *)
(** * Python values and built-ins                                          *)
(* ===================================================================== *)

Module Py.

(** The [ValueError]s of the source, told apart by the statement that
    raises them (their messages differ). *)
Inductive value_error : Type :=
| NegativeIncome        (* "gross_income must be non-negative; got ..." *)
| AgeNotIn_0_120        (* "age must be in [0, 120]; got ..." *)
| StateNotInSchedule    (* "State ... not in STATE_TAX_SCHEDULE. ..." *)
| StateNotInRegionMap   (* "State ... not found in STATE_TO_REGION. ..." *)
| AgeOutOfRange.        (* "Age ... is out of expected range (0-999)" *)

Inductive exn : Type :=
| ValueError (why : value_error)
| KeyError (key : string)
| IndexError
| ZeroDivisionError.

Inductive result (A : Type) : Type :=
| Ok (a : A)
| Raise (e : exn).
Arguments Ok {A} a.
Arguments Raise {A} e.

Definition bind {A B} (m : result A) (k : A → result B) : result B :=
  match m with
  | Ok a => k a
  | Raise e => Raise e
  end.

Definition is_ok {A} (m : result A) : Prop := ∃ a, m = Ok a.




(** [max(a, b)] and [min(a, b)]: the first argument unless the second is
    strictly larger (smaller). *)
Definition max (a b : Qc) : Qc := if decide (a < b) then b else a.
Definition min (a b : Qc) : Qc := if decide (b < a) then b else a.

(** [a / b] *)
Definition div (a b : Qc) : result Qc :=
  if decide (b = 0) then Raise ZeroDivisionError else Ok (a / b).

(** Nearest integer, ties to the even one. *)
Definition round_half_even (x : Qc) : Z :=
  let f := Qfloor x in
  let r := x - Qc_of_Z f in
  if decide (r < Q2Qc 0.5) then f
  else if decide (Q2Qc 0.5 < r) then (f + 1)%Z
  else if Z.even f then f else (f + 1)%Z.

Definition pow10 (n : nat) : Qc := Qc_of_Z (10 ^ Z.of_nat n).

(** [round(x, ndigits)] *)
Definition round (x : Qc) (ndigits : nat) : Qc :=
  Qc_of_Z (round_half_even (x * pow10 ndigits)) / pow10 ndigits.

(** [d[k]] *)
Definition subscript {V} (d : gmap string V) (k : string) : result V :=
  match d !! k with
  | Some v => Ok v
  | None => Raise (KeyError k)
  end.

(** [d.get(k, default)] *)
Definition get {V} (d : gmap string V) (k : string) (default : V) : V :=
  match d !! k with
  | Some v => v
  | None => default
  end.

End Py.

Import Py.

(** [x ← m; k] runs [m] and, unless it raised, continues with [k]. *)
#[global] Instance result_bind : MBind result := λ A B k m, Py.bind m k.
#[global] Instance result_ret : MRet result := λ A a, Ok a.

(* ===================================================================== *)
(** * constants.py                                                         *)
(* ===================================================================== *)

Module constants.

Definition STANDARD_DEDUCTION_SINGLE : Qc := Q2Qc 15000.

(** [(upper_bound, rate)]; [None] is the top bracket. *)
Definition FEDERAL_BRACKETS_SINGLE_2025 : list (option Qc * Qc) :=
  [ (Some (Q2Qc 11925),  Q2Qc 0.10);
    (Some (Q2Qc 48475),  Q2Qc 0.12);
    (Some (Q2Qc 103350), Q2Qc 0.22);
    (Some (Q2Qc 197300), Q2Qc 0.24);
    (Some (Q2Qc 250525), Q2Qc 0.32);
    (Some (Q2Qc 626350), Q2Qc 0.35);
    (None,               Q2Qc 0.37) ].

Definition SS_RATE : Qc := Q2Qc 0.062.
Definition SS_WAGE_BASE : Qc := Q2Qc 176100.
Definition MEDICARE_RATE : Qc := Q2Qc 0.0145.
Definition MEDICARE_SURCHARGE_RATE : Qc := Q2Qc 0.009.
Definition MEDICARE_SURCHARGE_THRESHOLD : Qc := Q2Qc 200000.

(** One breakpoint [(income_threshold, effective_rate)]. *)
Definition bp (income rate : Q) : Qc * Qc := (Q2Qc income, Q2Qc rate).

Definition STATE_TAX_SCHEDULE_items : list (string * list (Qc * Qc)) :=
  [ ("Texas",      [bp 0 0.0]);
    ("Florida",    [bp 0 0.0]);
    ("Nevada",     [bp 0 0.0]);
    ("Washington", [bp 0 0.0]);
    ("Wyoming",    [bp 0 0.0]);
    ("Illinois",
      [bp 0 0.020; bp 30000 0.040; bp 50000 0.046; bp 75000 0.048;
       bp 100000 0.049; bp 200000 0.049]);
    ("Georgia",
      [bp 0 0.00; bp 20000 0.025; bp 40000 0.038; bp 60000 0.042;
       bp 85000 0.044; bp 150000 0.047; bp 300000 0.049]);
    ("New York",
      [bp 0 0.00; bp 20000 0.030; bp 40000 0.045; bp 65000 0.055;
       bp 100000 0.060; bp 150000 0.065; bp 300000 0.070; bp 500000 0.080;
       bp 1000000 0.090]);
    ("California",
      [bp 0 0.00; bp 20000 0.030; bp 40000 0.052; bp 65000 0.068;
       bp 100000 0.078; bp 150000 0.085; bp 300000 0.095; bp 500000 0.105;
       bp 1000000 0.120]);
    ("Pennsylvania", [bp 0 0.0307]);
    ("Ohio",
      [bp 0 0.00; bp 26050 0.025; bp 100000 0.033; bp 115300 0.040]);
    ("Michigan",       [bp 0 0.0425]);
    ("North Carolina", [bp 0 0.045]);
    ("Virginia",
      [bp 0 0.00; bp 17000 0.020; bp 17001 0.030; bp 17001 0.050;
       bp 50000 0.055; bp 100000 0.057; bp 200000 0.058]);
    ("Colorado",      [bp 0 0.044]);
    ("Arizona",       [bp 0 0.025]);
    ("Massachusetts", [bp 0 0.050]);
    ("Tennessee",     [bp 0 0.0]) ].

Definition STATE_TAX_SCHEDULE : gmap string (list (Qc * Qc)) :=
  list_to_map STATE_TAX_SCHEDULE_items.

Definition STATE_TO_REGION : gmap string string :=
  list_to_map
  [ ("Connecticut", "Northeast"); ("Maine", "Northeast");
    ("Massachusetts", "Northeast"); ("New Hampshire", "Northeast");
    ("Rhode Island", "Northeast"); ("Vermont", "Northeast");
    ("New Jersey", "Northeast"); ("New York", "Northeast");
    ("Pennsylvania", "Northeast");
    ("Illinois", "Midwest"); ("Indiana", "Midwest"); ("Michigan", "Midwest");
    ("Ohio", "Midwest"); ("Wisconsin", "Midwest"); ("Iowa", "Midwest");
    ("Kansas", "Midwest"); ("Minnesota", "Midwest"); ("Missouri", "Midwest");
    ("Nebraska", "Midwest"); ("North Dakota", "Midwest");
    ("South Dakota", "Midwest");
    ("Delaware", "South"); ("Florida", "South"); ("Georgia", "South");
    ("Maryland", "South"); ("North Carolina", "South");
    ("South Carolina", "South"); ("Virginia", "South");
    ("West Virginia", "South"); ("District of Columbia", "South");
    ("Alabama", "South"); ("Kentucky", "South"); ("Mississippi", "South");
    ("Tennessee", "South"); ("Arkansas", "South"); ("Louisiana", "South");
    ("Oklahoma", "South"); ("Texas", "South");
    ("Arizona", "West"); ("Colorado", "West"); ("Idaho", "West");
    ("Montana", "West"); ("Nevada", "West"); ("New Mexico", "West");
    ("Utah", "West"); ("Wyoming", "West"); ("Alaska", "West");
    ("California", "West"); ("Hawaii", "West"); ("Oregon", "West");
    ("Washington", "West") ].

Definition ESSENTIAL_FRACTIONS_items : list (string * Qc) :=
  [ ("Food", Q2Qc 0.70);
    ("Housing", Q2Qc 1.00);
    ("Utilities, fuel, public services", Q2Qc 1.00);
    ("Household operations", Q2Qc 0.50);
    ("Housekeeping supplies", Q2Qc 0.70);
    ("Household furnishings and equipement", Q2Qc 0.20);
    ("Apparel and services", Q2Qc 0.60);
    ("Transportation", Q2Qc 0.75);
    ("Healthcare", Q2Qc 1.00);
    ("Entertainment", Q2Qc 0.00);
    ("Personal care", Q2Qc 0.80);
    ("Education", Q2Qc 0.50);
    ("Miscellaneous", Q2Qc 0.00);
    ("Personal insurance", Q2Qc 0.10) ].

Definition ESSENTIAL_FRACTIONS : gmap string Qc :=
  list_to_map ESSENTIAL_FRACTIONS_items.

Definition INCOME_ELASTICITY : gmap string Qc :=
  list_to_map
  [ ("Food", Q2Qc 0.55);
    ("Housing", Q2Qc 0.70);
    ("Utilities, fuel, public services", Q2Qc 0.60);
    ("Household operations", Q2Qc 0.90);
    ("Housekeeping supplies", Q2Qc 0.75);
    ("Household furnishings and equipement", Q2Qc 1.10);
    ("Apparel and services", Q2Qc 0.85);
    ("Transportation", Q2Qc 0.80);
    ("Healthcare", Q2Qc 0.65);
    ("Entertainment", Q2Qc 1.20);
    ("Personal care", Q2Qc 0.75);
    ("Education", Q2Qc 0.90);
    ("Miscellaneous", Q2Qc 1.00);
    ("Personal insurance", Q2Qc 0.95) ].

Definition AVG_INCOME_BY_AGE : gmap string Qc :=
  list_to_map
  [ ("Under 25", Q2Qc 42000);
    ("25-34", Q2Qc 62000);
    ("35-44", Q2Qc 83000);
    ("45-54", Q2Qc 88000);
    ("55-64", Q2Qc 80000);
    ("65-74", Q2Qc 58000);
    ("75 and older", Q2Qc 44000) ].



End constants.

Import constants.

(* ===================================================================== *)
(** * tax_calculator.py                                                    *)
(* ===================================================================== *)

Module tax_calculator.

(** The body of the [for upper, rate in ...] loop of
    [compute_federal_tax], with the loop state [(tax, prev_limit)]; the
    [break] returns the tax accumulated so far. *)
Fixpoint federal_loop (brackets : list (option Qc * Qc))
    (taxable tax prev_limit : Qc) : Qc :=
  match brackets with
  | [] => tax
  | (None, rate) :: rest =>
      let bracket_income := Py.max 0 (taxable - prev_limit) in
      let tax := tax + bracket_income * rate in
      federal_loop rest taxable tax prev_limit
  | (Some upper, rate) :: rest =>
      let bracket_income := Py.max 0 (Py.min taxable upper - prev_limit) in
      let tax := tax + bracket_income * rate in
      if decide (taxable ≤ upper) then tax
      else federal_loop rest taxable tax upper
  end.

(** The amount [tax] holds when the loop ends, before [round(tax, 2)]. *)
Definition federal_tax_unrounded (gross_income : Qc) : Qc :=
  let taxable := Py.max 0 (gross_income - STANDARD_DEDUCTION_SINGLE) in
  federal_loop FEDERAL_BRACKETS_SINGLE_2025 taxable 0 0.

Definition compute_federal_tax (gross_income : Qc) : Qc :=
  Py.round (federal_tax_unrounded gross_income) 2.

Definition compute_effective_federal_rate (gross_income : Qc) : result Qc :=
  if decide (gross_income ≤ 0) then Ok 0
  else Py.div (compute_federal_tax gross_income) gross_income.

Record fica : Type := {
  social_security : Qc;
  medicare : Qc;
  medicare_base : Qc;
  medicare_surcharge : Qc;
  fica_total : Qc;          (* key 'total' *)
}.

Definition compute_fica (gross_income : Qc) : fica :=
  let ss_taxable := Py.min gross_income SS_WAGE_BASE in
  let social_security := Py.round (ss_taxable * SS_RATE) 2 in
  let medicare_base := Py.round (gross_income * MEDICARE_RATE) 2 in
  let medicare_surcharge :=
    if decide (MEDICARE_SURCHARGE_THRESHOLD < gross_income)
    then Py.round ((gross_income - MEDICARE_SURCHARGE_THRESHOLD)
                   * MEDICARE_SURCHARGE_RATE) 2
    else 0 in
  let medicare_total := Py.round (medicare_base + medicare_surcharge) 2 in
  {| social_security := social_security;
     medicare := medicare_total;
     medicare_base := medicare_base;
     medicare_surcharge := medicare_surcharge;
     fica_total := Py.round (social_security + medicare_total) 2 |}.

(** The [for i in range(len(schedule) - 1)] loop of [_interpolate_rate]
    over the adjacent pairs [schedule[i], schedule[i + 1]], followed by
    [return schedule[-1][1]] once the pairs are exhausted. *)
Fixpoint interpolate_loop (schedule : list (Qc * Qc)) (income : Qc)
    : result Qc :=
  match schedule with
  | [] => Raise IndexError
  | [(_, last_rate)] => Ok last_rate
  | (lo_inc, lo_rate) :: (((hi_inc, hi_rate) :: _) as tail) =>
      if decide (lo_inc ≤ income ∧ income ≤ hi_inc) then
        if decide (hi_inc = lo_inc) then Ok lo_rate
        else
          frac ← Py.div (income - lo_inc) (hi_inc - lo_inc);
          Ok (lo_rate + frac * (hi_rate - lo_rate))
      else interpolate_loop tail income
  end.

Definition _interpolate_rate (schedule : list (Qc * Qc)) (income : Qc)
    : result Qc :=
  match schedule with
  | [(_, rate)] => Ok rate
  | _ => interpolate_loop schedule income
  end.

Definition compute_state_tax (gross_income : Qc) (state : string)
    : result Qc :=
  match STATE_TAX_SCHEDULE !! state with
  | None => Raise (ValueError StateNotInSchedule)
  | Some schedule =>
      effective_rate ← _interpolate_rate schedule gross_income;
      Ok (Py.round (gross_income * effective_rate) 2)
  end.

Record taxes : Type := {
  federal : Qc;
  fica_part : fica;          (* key 'fica' *)
  state_tax : Qc;            (* key 'state' *)
  total : Qc;
  effective_total_rate : Qc;
  effective_federal_rate : Qc;
  effective_state_rate : Qc;
}.

(** [x / gross_income if gross_income > 0 else 0.0] *)
Definition rate_of (x gross_income : Qc) : result Qc :=
  if decide (0 < gross_income) then Py.div x gross_income else Ok 0.

Definition compute_all_taxes (gross_income : Qc) (state : string)
    : result taxes :=
  let federal := compute_federal_tax gross_income in
  let fica := compute_fica gross_income in
  state_tax ← compute_state_tax gross_income state;
  let total := Py.round (federal + fica_total fica + state_tax) 2 in
  r_total ← rate_of total gross_income;
  r_federal ← rate_of federal gross_income;
  r_state ← rate_of state_tax gross_income;
  Ok {| federal := federal;
        fica_part := fica;
        state_tax := state_tax;
        total := total;
        effective_total_rate := r_total;
        effective_federal_rate := r_federal;
        effective_state_rate := r_state |}.

End tax_calculator.

Import tax_calculator.

(* ===================================================================== *)
(** * expenditure_model.py                                                 *)
(* ===================================================================== *)

Module expenditure_model.

Definition _AGE_BREAKS : list (Z * Z * string) :=
  [ (0,  24,  "Under 25");
    (25, 34,  "25-34");
    (35, 44,  "35-44");
    (45, 54,  "45-54");
    (55, 64,  "55-64");
    (65, 74,  "65-74");
    (75, 999, "75 and older") ]%Z.

Fixpoint age_group_loop (breaks : list (Z * Z * string)) (age : Z)
    : result string :=
  match breaks with
  | [] => Raise (ValueError AgeOutOfRange)
  | (lo, hi, label) :: rest =>
      if decide (lo ≤ age ∧ age ≤ hi)%Z then Ok label
      else age_group_loop rest age
  end.

Definition get_age_group (age : Z) : result string :=
  age_group_loop _AGE_BREAKS age.

Definition get_region_for_state (state : string) : result string :=
  match STATE_TO_REGION !! state with
  | None => Raise (ValueError StateNotInRegionMap)
  | Some region => Ok region
  end.

(** The dictionary [load_expenditure_data] returns, with the keys the
    model reads. *)
Record exp_data : Type := {
  by_age : gmap string (gmap string Qc);
  by_region : gmap string (gmap string Qc);
  mean_income_by_age : gmap string Qc;
  categories : list string;
}.

(** One value of [by_category]. *)
Record category_entry : Type := {
  bls_age : Qc;
  bls_region : Qc;
  bls_blended : Qc;
  scaled : Qc;
  alpha : Qc;
  beta : Qc;
  essential : Qc;
}.

Record expenses : Type := {
  total_essential : Qc;
  total_all : Qc;
  by_category : gmap string category_entry;
  age_group : string;
  region : string;
  avg_income_for_age_group : Qc;
  income_ratio : Qc;
}.

Section with_pow.

(** [pow x y] is [x ** y]. *)
Variable pow : Qc → Qc → Qc.

Definition _scale_expenditure (bls_amount salary avg_income beta : Qc)
    : result Qc :=
  if decide (avg_income ≤ 0 ∨ salary ≤ 0) then Ok bls_amount
  else
    ratio ← Py.div salary avg_income;
    Ok (bls_amount * pow ratio beta).

(** The body of [for cat in categories], with the loop state
    [(by_category, total_essential, total_all)]. *)
Fixpoint category_loop (cats : list string)
    (age_data region_data : gmap string Qc)
    (w_age w_reg salary avg_income : Qc)
    (st : gmap string category_entry * Qc * Qc)
    : result (gmap string category_entry * Qc * Qc) :=
  match cats with
  | [] => Ok st
  | cat :: rest =>
      let '(by_category, total_essential, total_all) := st in
      let age_bls := Py.get age_data cat 0 in
      let reg_bls := Py.get region_data cat 0 in
      let bls_base := w_age * age_bls + w_reg * reg_bls in
      let beta := Py.get INCOME_ELASTICITY cat 1 in
      scaled ← _scale_expenditure bls_base salary avg_income beta;
      let alpha := Py.get ESSENTIAL_FRACTIONS cat 0 in
      let essential := scaled * alpha in
      let entry :=
        {| bls_age := age_bls;
           bls_region := reg_bls;
           bls_blended := bls_base;
           scaled := scaled;
           alpha := alpha;
           beta := beta;
           essential := essential |} in
      category_loop rest age_data region_data w_age w_reg salary
        avg_income
        (<[cat := entry]> by_category,
         total_essential + essential,
         total_all + scaled)
  end.

Definition compute_essential_expenses (salary : Qc) (age : Z)
    (state : string) (data : exp_data) (use_region_blend : bool)
    : result expenses :=
  age_group ← get_age_group age;
  region ← get_region_for_state state;
  fallback ← Py.subscript AVG_INCOME_BY_AGE age_group;
  let avg_income := Py.get (mean_income_by_age data) age_group fallback in
  age_data ← Py.subscript (by_age data) age_group;
  region_data ← Py.subscript (by_region data) region;
  let w_age := if use_region_blend then Q2Qc 0.6 else 1 in
  let w_reg := if use_region_blend then Q2Qc 0.4 else 0 in
  '(by_category, total_essential, total_all) ←
    category_loop (categories data) age_data region_data w_age w_reg
      salary avg_income (∅, 0, 0);
  income_ratio ←
    (if decide (0 < avg_income) then Py.div salary avg_income else Ok 1);
  Ok {| total_essential := Py.round total_essential 2;
        total_all := Py.round total_all 2;
        by_category := by_category;
        age_group := age_group;
        region := region;
        avg_income_for_age_group := avg_income;
        income_ratio := income_ratio |}.

End with_pow.

(** [{cat: info['essential'] for cat, info in
      exp_result['by_category'].items()}] *)
Definition get_essential_breakdown (exp_result : expenses)
    : gmap string Qc :=
  essential <$> by_category exp_result.

End expenditure_model.

Import expenditure_model.

(* ===================================================================== *)
(** * disposable_income.py                                                 *)
(* ===================================================================== *)

Module disposable_income.

(** The value of key ['taxes'] of the result. *)
Record tax_breakdown : Type := {
  tb_federal : Qc;
  tb_social_security : Qc;
  tb_medicare : Qc;
  tb_fica_total : Qc;
  tb_state : Qc;
  tb_total : Qc;
}.

Record di_result : Type := {
  r_gross_income : Qc;
  r_age : Z;
  r_state : string;
  r_taxes : tax_breakdown;
  r_total_tax : Qc;
  r_effective_tax_rate : Qc;
  r_expenses : expenses;
  r_total_essential : Qc;
  r_total_all_expenses : Qc;
  r_disposable_income : Qc;
  r_di_fraction : Qc;
  r_age_group : string;
  r_region : string;
  r_income_ratio : Qc;
  r_assumptions : list string;
}.

Definition assumptions : list string :=
  [ "Single filer, standard deduction ($15,000, IRS 2025)";
    "Salary is sole income source";
    "State rates: 2025 effective rates at income level (Tax Foundation)";
    "BLS CES 2024 household expenditure, treated as individual";
    "Engel curve: constant elasticity (power law) approximation of QUAIDS";
    "No 401(k)/IRA deductions; voluntary savings treated as disposable";
    "Static model: no career progression or inflation" ].

Section with_pow.

Variable pow : Qc → Qc → Qc.

Definition compute_disposable_income (gross_income : Qc) (age : Z)
    (state : string) (data : exp_data) (use_region_blend : bool)
    : result di_result :=
  if decide (gross_income < 0) then Raise (ValueError NegativeIncome)
  else if decide (¬ (0 ≤ age ∧ age ≤ 120)%Z)
  then Raise (ValueError AgeNotIn_0_120)
  else
    taxes ← compute_all_taxes gross_income state;
    exp_result ← compute_essential_expenses pow gross_income age state
                   data use_region_blend;
    let total_tax := total taxes in
    let total_essential := total_essential exp_result in
    let disposable := gross_income - total_tax - total_essential in
    di_fraction ←
      (if decide (0 < gross_income) then Py.div disposable gross_income
       else Ok 0);
    Ok {| r_gross_income := gross_income;
          r_age := age;
          r_state := state;
          r_taxes :=
            {| tb_federal := federal taxes;
               tb_social_security := social_security (fica_part taxes);
               tb_medicare := medicare (fica_part taxes);
               tb_fica_total := fica_total (fica_part taxes);
               tb_state := state_tax taxes;
               tb_total := total_tax |};
          r_total_tax := total_tax;
          r_effective_tax_rate := effective_total_rate taxes;
          r_expenses := exp_result;
          r_total_essential := total_essential;
          r_total_all_expenses := total_all exp_result;
          r_disposable_income := Py.round disposable 2;
          r_di_fraction := Py.round di_fraction 4;
          r_age_group := age_group exp_result;
          r_region := region exp_result;
          r_income_ratio := income_ratio exp_result;
          r_assumptions := assumptions |}.

End with_pow.


Section run_profiles.

Variable pow : Qc → Qc → Qc.



End run_profiles.

End disposable_income.

Import disposable_income.

(* ===================================================================== *)
(** * data_loader.py: the sanity checks on a parsed table                  *)
(* ===================================================================== *)

Module data_loader.

Definition _AGE_COLS : list (string * Z) :=
[ ("Under 25", 1); ("25-34", 2); ("35-44", 3); ("45-54", 4);
  ("55-64", 5); ("65-74", 6); ("75 and older", 7) ]%Z.

Definition _REGION_COLS : list (string * Z) :=
[ ("Northeast", 8); ("Midwest", 9); ("South", 10); ("West", 11) ]%Z.

(** How a run of [validate_data] ends: it returns, an [assert] fails, or a
    subscript raises. *)
Inductive checked (A : Type) : Type :=
| Done (a : A)
| AssertionError
| Raised (e : exn).
Arguments Done {A} a.
Arguments AssertionError {A}.
Arguments Raised {A} e.

Definition and_then {A B} (m : checked A) (k : A → checked B) : checked B :=
  match m with
  | Done a => k a
  | AssertionError => AssertionError
  | Raised e => Raised e
  end.

(** [assert P] *)
Definition assert (P : Prop) `{Decision P} : checked unit :=
  if decide P then Done tt else AssertionError.

(** [d[k]] *)
Definition item {V} (d : gmap string V) (k : string) : checked V :=
  match d !! k with
  | Some v => Done v
  | None => Raised (KeyError k)
  end.

(** [abs(x)] *)
Definition abs (x : Qc) : Qc := if decide (x < 0) then - x else x.

(** The inner loop [for cat in ['Food', 'Housing', 'Transportation',
    'Healthcare']] for one age group. *)
Fixpoint check_categories (by_age : gmap string (gmap string Qc))
    (age : string) (cats : list string) : checked unit :=
  match cats with
  | [] => Done tt
  | cat :: rest =>
      and_then (item by_age age) (λ row,
      and_then (assert (is_Some (row !! cat))) (λ _,
      and_then (item by_age age) (λ row,
      and_then (item row cat) (λ v,
      and_then (assert (0 < v)) (λ _,
      check_categories by_age age rest)))))
  end.

(** The outer loop [for age in expected_ages]. *)
Fixpoint check_ages (by_age : gmap string (gmap string Qc))
    (ages : list string) : checked unit :=
  match ages with
  | [] => Done tt
  | age :: rest =>
      and_then
        (check_categories by_age age
           ["Food"; "Housing"; "Transportation"; "Healthcare"])
        (λ _, check_ages by_age rest)
  end.

(** [validate_data]; of its [print] calls only the subscripts they evaluate
    are kept. *)
Definition validate_data (data : exp_data) : checked unit :=
  let expected_ages := _AGE_COLS.*1 in
  and_then (assert (dom (by_age data) =@{gset string}
                    list_to_set expected_ages)) (λ _,
  and_then (assert (dom (by_region data) =@{gset string}
                    {[ "Northeast"; "Midwest"; "South"; "West" ]})) (λ _,
  and_then (check_ages (by_age data) expected_ages) (λ _,
  and_then (item (by_age data) "25-34") (λ row,
  and_then (item row "Food") (λ food_25_34,
  and_then (assert (abs (food_25_34 - Q2Qc 9630) < Q2Qc 100)) (λ _,
  and_then (item (mean_income_by_age data) "25-34") (λ _,
  Done tt))))))).

End data_loader.

Import data_loader.

(** An executable instance of [**] for running the model: the exponent is
    truncated to an integer.  It agrees with the real power at base [1]
    and is positive on positive bases, the two laws used below. *)
Definition pow_trunc (x y : Qc) : Qc :=
  let n := Qfloor y in
  if decide (0 ≤ n)%Z then x ^ Z.to_nat n else / (x ^ Z.to_nat (- n)).

(** A small well-formed expenditure table (values of the shape of the BLS
    sheet: every age group and region present). *)
Definition row (food housing transport health : Q) : gmap string Qc :=
  list_to_map
    [ ("Food", Q2Qc food); ("Housing", Q2Qc housing);
      ("Transportation", Q2Qc transport); ("Healthcare", Q2Qc health) ].

Definition sample_data : exp_data :=
  {| by_age := list_to_map
       [ ("Under 25", row 7215 16853 9000 1500);
         ("25-34", row 9630 24000 12000 3500);
         ("35-44", row 12000 29000 15000 5000);
         ("45-54", row 12500 29500 16000 6000);
         ("55-64", row 10500 25000 14000 7000);
         ("65-74", row 9000 22000 10000 8000);
         ("75 and older", row 6500 19000 6000 8500) ];
     by_region := list_to_map
       [ ("Northeast", row 11372 29469 12500 6200);
         ("Midwest", row 9600 22000 12800 6400);
         ("South", row 9400 22500 13200 5900);
         ("West", row 11000 29000 14000 6300) ];
     mean_income_by_age := list_to_map
       [ ("Under 25", Q2Qc 48514); ("25-34", Q2Qc 60000);
         ("35-44", Q2Qc 120000); ("45-54", Q2Qc 130000);
         ("55-64", Q2Qc 115000); ("65-74", Q2Qc 75000);
         ("75 and older", Q2Qc 55000) ];
     categories := ["Food"; "Housing"; "Transportation"; "Healthcare"] |}.

(* ===================================================================== *)
(** * Vocabulary of the specification                                      *)
(* ===================================================================== *)

(** A bracket schedule starting at [prev]: upper bounds ascend, the
    unbounded bracket comes last, every rate lies in [[0, rmax]]. *)
Fixpoint brackets_ok (prev rmax : Qc) (brackets : list (option Qc * Qc))
    : Prop :=
  match brackets with
  | [] => True
  | (None, rate) :: rest => 0 ≤ rate ∧ rate ≤ rmax ∧ rest = []
  | (Some upper, rate) :: rest =>
      0 ≤ rate ∧ rate ≤ rmax ∧ prev ≤ upper ∧ brackets_ok upper rmax rest
  end.

(** "Tax accrues on the portion of taxable income falling within
    (previous_upper, this_upper], at this bracket's marginal rate": the sum
    over all brackets, with no early exit. *)
Fixpoint bracket_sum (brackets : list (option Qc * Qc)) (taxable prev : Qc)
    : Qc :=
  match brackets with
  | [] => 0
  | (None, rate) :: rest =>
      Py.max 0 (taxable - prev) * rate + bracket_sum rest taxable prev
  | (Some upper, rate) :: rest =>
      Py.max 0 (Py.min taxable upper - prev) * rate
      + bracket_sum rest taxable upper
  end.

(** The top bracket's rate. *)
Definition TOP_RATE : Qc := Q2Qc 0.37.

(** The two laws of [**] that the properties below rest on:
    [1.0 ** y == 1.0] for every [y], and a power of a positive base is not
    negative. *)
Definition pow_one_l (pow : Qc → Qc → Qc) : Prop := ∀ y, pow 1 y = 1.
Definition pow_nonneg (pow : Qc → Qc → Qc) : Prop :=
  ∀ x y, 0 < x → 0 ≤ pow x y.

(** Every age group and every region has its row in the table. *)
Definition well_formed (data : exp_data) : Prop :=
  (∀ lo hi group, (lo, hi, group) ∈ _AGE_BREAKS →
     is_Some (by_age data !! group))
  ∧ (∀ state region, STATE_TO_REGION !! state = Some region →
       is_Some (by_region data !! region)).

(** No baseline amount of the table is negative. *)
Definition nonneg_rows (rows : gmap string (gmap string Qc)) : Prop :=
  ∀ key row cat v, rows !! key = Some row → row !! cat = Some v → 0 ≤ v.

Definition nonneg_baselines (data : exp_data) : Prop :=
  nonneg_rows (by_age data) ∧ nonneg_rows (by_region data).

(** Income thresholds of a state schedule do not decrease. *)
Fixpoint ascending (schedule : list (Qc * Qc)) : Prop :=
  match schedule with
  | (lo_inc, _) :: (((hi_inc, _) :: _) as tail) =>
      lo_inc ≤ hi_inc ∧ ascending tail
  | _ => True
  end.

(** The zero-width segments of a schedule: for every two consecutive
    breakpoints with one income threshold, that threshold and the rate of
    the lower (earlier) breakpoint. *)
Fixpoint zero_width_pairs (schedule : list (Qc * Qc)) : list (Qc * Qc) :=
  match schedule with
  | (lo_inc, lo_rate) :: (((hi_inc, _) :: _) as tail) =>
      if decide (hi_inc = lo_inc)
      then (lo_inc, lo_rate) :: zero_width_pairs tail
      else zero_width_pairs tail
  | _ => []
  end.

(** Income thresholds strictly increase. *)
Fixpoint strictly_ascending (schedule : list (Qc * Qc)) : Prop :=
  match schedule with
  | (lo_inc, _) :: (((hi_inc, _) :: _) as tail) =>
      lo_inc < hi_inc ∧ strictly_ascending tail
  | _ => True
  end.

(** Every rate of a schedule lies in [[lo, hi]]. *)
Definition rates_within (lo hi : Qc) (schedule : list (Qc * Qc)) : Prop :=
  Forall (λ p, lo ≤ p.2 ∧ p.2 ≤ hi) schedule.

(** The largest effective rate of the state-tax table (California, from
    1,000,000). *)
Definition MAX_STATE_RATE : Qc := Q2Qc 0.120.



(** The blend weights of [compute_essential_expenses]. *)
Definition blend_w_age (use_region_blend : bool) : Qc :=
  if use_region_blend then Q2Qc 0.6 else 1.
Definition blend_w_reg (use_region_blend : bool) : Qc :=
  if use_region_blend then Q2Qc 0.4 else 0.

(** The categories [validate_data] checks in every age group. *)
Definition KEY_CATEGORIES : list string :=
  ["Food"; "Housing"; "Transportation"; "Healthcare"].

Definition CALIFORNIA : list (Qc * Qc) :=
  [ bp 0 0.00; bp 20000 0.030; bp 40000 0.052; bp 65000 0.068;
    bp 100000 0.078; bp 150000 0.085; bp 300000 0.095; bp 500000 0.105;
    bp 1000000 0.120 ].

(** The entry the category loop stores for [cat] when the scaling
    returned [sc]. *)
Definition entry_for (age_data region_data : gmap string Qc)
    (w_age w_reg : Qc) (cat : string) (sc : Qc) : category_entry :=
  {| bls_age := Py.get age_data cat 0;
     bls_region := Py.get region_data cat 0;
     bls_blended := w_age * Py.get age_data cat 0
                    + w_reg * Py.get region_data cat 0;
     scaled := sc;
     alpha := Py.get ESSENTIAL_FRACTIONS cat 0;
     beta := Py.get INCOME_ELASTICITY cat 1;
     essential := sc * Py.get ESSENTIAL_FRACTIONS cat 0 |}.

(** Effective rates of a schedule do not decrease. *)
Fixpoint rates_ascending (schedule : list (Qc * Qc)) : Prop :=
  match schedule with
  | (_, lo_rate) :: (((_, hi_rate) :: _) as tail) =>
      lo_rate ≤ hi_rate ∧ rates_ascending tail
  | _ => True
  end.

(** The first breakpoint of a schedule is at income 0. *)
Definition starts_at_zero (schedule : list (Qc * Qc)) : Prop :=
  ∃ rate rest, schedule = (0, rate) :: rest.

(** An amount in whole cents. *)
Definition cents (q : Qc) : Prop := ∃ k : Z, q = Qc_of_Z k / pow10 2.

(** [r] is [x] rounded to [n] decimals: a whole multiple of [10^-n] at most
    half a unit from [x].  At a decimal tie both neighbours qualify: on
    binary floats the side [round] takes there depends on how the argument
    was computed ([round(15 * 0.009, 2)] is 0.13, [round(0.135, 2)] is
    0.14), so returned amounts are stated up to that choice. *)
Definition rounded_to (n : nat) (x r : Qc) : Prop :=
  (∃ k : Z, r = Qc_of_Z k / pow10 n)
  ∧ x - Q2Qc 0.5 / pow10 n ≤ r ∧ r ≤ x + Q2Qc 0.5 / pow10 n.


(** One entry of [by_category] agrees with the coefficients of its
    category. *)
Definition entry_consistent (cat : string) (e : category_entry) : Prop :=
  alpha e = Py.get ESSENTIAL_FRACTIONS cat 0
  ∧ beta e = Py.get INCOME_ELASTICITY cat 1
  ∧ essential e = scaled e * alpha e.

(** What holds of one schedule of the table. *)
Definition schedule_facts (schedule : list (Qc * Qc)) : Prop :=
  schedule ≠ [] ∧ ascending schedule
  ∧ ∀ x lo_rate, (x, lo_rate) ∈ zero_width_pairs schedule →
      _interpolate_rate schedule x = Ok lo_rate.

(** Virginia's schedule, the one with a zero-width segment. *)
Definition VIRGINIA : list (Qc * Qc) :=
  [ bp 0 0.00; bp 17000 0.020; bp 17001 0.030; bp 17001 0.050;
    bp 50000 0.055; bp 100000 0.057; bp 200000 0.058 ].

(** What the category loop keeps true of its state. *)
Definition loop_inv (st : gmap string category_entry * Qc * Qc) : Prop :=
  (∀ cat e, st.1.1 !! cat = Some e → essential e ≤ scaled e)
  ∧ st.1.2 ≤ st.2.

(* ===================================================================== *)
(** * Arithmetic on canonical rationals                                    *)
(* ===================================================================== *)

(** Goals over [Qc] are moved to [Q], where [lra] decides linear
    arithmetic: [this] commutes with every operation up to [==]. *)

Lemma this_plus x y : (this (x + y) == this x + this y)%Q.
Proof. apply Qred_correct. Qed.

Lemma this_mult x y : (this (x * y) == this x * this y)%Q.
Proof. apply Qred_correct. Qed.

Lemma this_opp x : (this (- x) == - this x)%Q.
Proof. apply Qred_correct. Qed.

Lemma this_minus x y : (this (x - y) == this x - this y)%Q.
Proof. unfold Qcminus. rewrite this_plus, this_opp. reflexivity. Qed.

Lemma this_inv x : (this (/ x) == / this x)%Q.
Proof. apply Qred_correct. Qed.

Lemma this_div x y : (this (x / y) == this x / this y)%Q.
Proof. unfold Qcdiv. rewrite this_mult, this_inv. reflexivity. Qed.

Lemma this_Q2Qc c : (this (Q2Qc c) == c)%Q.
Proof. apply Qred_correct. Qed.

Lemma this_of_Z n : this (Qc_of_Z n) = inject_Z n.
Proof. reflexivity. Qed.

Lemma Qc_eq_this x y : x = y ↔ (this x == this y)%Q.
Proof. split; [intros ->; reflexivity | apply Qc_is_canon]. Qed.

Lemma Qc_neq_this x y : x ≠ y ↔ ¬ (this x == this y)%Q.
Proof. rewrite Qc_eq_this. tauto. Qed.

Ltac qc_push :=
  unfold Qcle, Qclt in *;
  repeat match goal with
  | H : @eq Qc _ _ |- _ => apply Qc_eq_this in H
  | H : ¬ @eq Qc _ _ |- _ => apply Qc_neq_this in H
  | |- @eq Qc _ _ => apply Qc_eq_this
  | |- ¬ @eq Qc _ _ => apply Qc_neq_this
  end;
  repeat first
    [ rewrite this_plus | rewrite this_minus | rewrite this_mult
    | rewrite this_opp | rewrite this_div | rewrite this_inv
    | rewrite this_Q2Qc | rewrite this_of_Z ];
  repeat match goal with
  | H : _ |- _ => first
    [ rewrite this_plus in H | rewrite this_minus in H
    | rewrite this_mult in H | rewrite this_opp in H
    | rewrite this_div in H | rewrite this_inv in H
    | rewrite this_Q2Qc in H | rewrite this_of_Z in H ]
  end.

Ltac qc_lra := qc_push; lra.

(** Closed comparisons and equations are decided by evaluation. *)
Ltac qc_eval :=
  match goal with
  | |- @eq Qc _ _ => apply Qc_is_canon; vm_compute; reflexivity
  | |- _ => apply (bool_decide_unpack _); vm_compute; exact I
  end.

(** ** [max] and [min] *)

Lemma max_spec a b : (a ≤ b ∧ Py.max a b = b) ∨ (b ≤ a ∧ Py.max a b = a).
Proof.
  unfold Py.max. destruct (decide (a < b)) as [H|H].
  - left. split; [apply Qclt_le_weak, H | reflexivity].
  - right. split; [apply Qcnot_lt_le, H | reflexivity].
Qed.

Lemma min_spec a b : (a ≤ b ∧ Py.min a b = a) ∨ (b ≤ a ∧ Py.min a b = b).
Proof.
  unfold Py.min. destruct (decide (b < a)) as [H|H].
  - right. split; [apply Qclt_le_weak, H | reflexivity].
  - left. split; [apply Qcnot_lt_le, H | reflexivity].
Qed.

(** Replaces every [max]/[min] of the goal by its value, case by case. *)
Ltac split_minmax :=
  repeat match goal with
  | |- context [Py.max ?a ?b] =>
      let H := fresh "Hmax" in let E := fresh "Emax" in
      destruct (max_spec a b) as [[H E]|[H E]]; rewrite E in *; clear E
  | |- context [Py.min ?a ?b] =>
      let H := fresh "Hmin" in let E := fresh "Emin" in
      destruct (min_spec a b) as [[H E]|[H E]]; rewrite E in *; clear E
  | _ : context [Py.max ?a ?b] |- _ =>
      let H := fresh "Hmax" in let E := fresh "Emax" in
      destruct (max_spec a b) as [[H E]|[H E]]; rewrite E in *; clear E
  | _ : context [Py.min ?a ?b] |- _ =>
      let H := fresh "Hmin" in let E := fresh "Emin" in
      destruct (min_spec a b) as [[H E]|[H E]]; rewrite E in *; clear E
  end.

(** ** Rounding *)

Lemma floor_bounds (x : Qc) :
  (inject_Z (Qfloor x) <= x ∧ x < inject_Z (Qfloor x) + 1)%Q.
Proof.
  split; [apply Qfloor_le |].
  pose proof (Qlt_floor x) as H. rewrite inject_Z_plus in H. exact H.
Qed.

Lemma round_half_even_bounds x :
  Qc_of_Z (round_half_even x) - Q2Qc 0.5 ≤ x
  ∧ x ≤ Qc_of_Z (round_half_even x) + Q2Qc 0.5.
Proof.
  unfold round_half_even. destruct (floor_bounds x) as [Hlo Hhi].
  repeat case_decide; try destruct (Z.even _);
    split; qc_push; rewrite ?inject_Z_plus; change (inject_Z 1) with 1%Q; lra.
Qed.

Lemma round_half_even_mono x y :
  x ≤ y → (round_half_even x ≤ round_half_even y)%Z.
Proof.
  intros Hxy.
  assert (Hf : (Qfloor x ≤ Qfloor y)%Z) by (apply Qfloor_resp_le, Hxy).
  destruct (floor_bounds x) as [Hxlo Hxhi].
  destruct (floor_bounds y) as [Hylo Hyhi].
  destruct (decide (Qfloor x = Qfloor y)) as [E|NE].
  - unfold round_half_even. rewrite <- E in *.
    destruct (Z.even (Qfloor x));
      repeat case_decide; try lia; exfalso; qc_lra.
  - assert (Hx : (round_half_even x ≤ Qfloor x + 1)%Z).
    { unfold round_half_even.
      repeat case_decide; try destruct (Z.even _); lia. }
    assert (Hy : (Qfloor y ≤ round_half_even y)%Z).
    { unfold round_half_even.
      repeat case_decide; try destruct (Z.even _); lia. }
    lia.
Qed.

Lemma round_half_even_of_Z n : round_half_even (Qc_of_Z n) = n.
Proof.
  unfold round_half_even.
  replace (Qfloor (Qc_of_Z n)) with n by (symmetry; apply Qfloor_Z).
  case_decide as H; [reflexivity |]. exfalso. apply H. qc_lra.
Qed.

Lemma pow10_pos n : 0 < pow10 n.
Proof.
  unfold pow10. assert (0 < 10 ^ Z.of_nat n)%Z by (apply Z.pow_pos_nonneg; lia).
  qc_push. replace 0%Q with (inject_Z 0) by reflexivity.
  rewrite <- Zlt_Qlt. assumption.
Qed.

Lemma Qc_of_Z_le m n : (m ≤ n)%Z → Qc_of_Z m ≤ Qc_of_Z n.
Proof. intros H. qc_push. rewrite <- Zle_Qle. exact H. Qed.

Lemma div_le_mono_pos a b c : 0 < c → a ≤ b → a / c ≤ b / c.
Proof.
  intros Hc Hab. unfold Qcdiv. apply Qcmult_le_compat_r; [exact Hab |].
  apply Qclt_le_weak. qc_push. apply Qinv_lt_0_compat. exact Hc.
Qed.

Lemma round_mono x y n : x ≤ y → Py.round x n ≤ Py.round y n.
Proof.
  intros Hxy. unfold Py.round.
  apply div_le_mono_pos; [apply pow10_pos |].
  apply Qc_of_Z_le, round_half_even_mono.
  apply Qcmult_le_compat_r; [exact Hxy | apply Qclt_le_weak, pow10_pos].
Qed.

Lemma round_of_Z_div k n : Py.round (Qc_of_Z k / pow10 n) n = Qc_of_Z k / pow10 n.
Proof.
  unfold Py.round. f_equal. f_equal.
  rewrite <- (round_half_even_of_Z k) at 2. f_equal.
  pose proof (pow10_pos n) as Hp.
  qc_push. field. lra.
Qed.

Lemma round_0 n : Py.round 0 n = 0.
Proof.
  replace (0 : Qc) with (Qc_of_Z 0 / pow10 n) at 1.
  - rewrite round_of_Z_div. pose proof (pow10_pos n). qc_push. field. lra.
  - pose proof (pow10_pos n). qc_push. field. lra.
Qed.

(** Rounding to cents moves an amount by at most half a cent. *)
Lemma round2_bounds x :
  x - Q2Qc 0.005 ≤ Py.round x 2 ∧ Py.round x 2 ≤ x + Q2Qc 0.005.
Proof.
  unfold Py.round.
  destruct (round_half_even_bounds (x * pow10 2)) as [Hlo Hhi].
  assert (E : pow10 2 = Q2Qc 100) by qc_eval. rewrite E in *.
  split; qc_push; unfold Qdiv; change (/ 100)%Q with (1 # 100)%Q; lra.
Qed.

(** [round(x, n)] is [x] rounded to [n] decimals. *)
Lemma round_rounded_to x n : rounded_to n x (Py.round x n).
Proof.
  unfold rounded_to, Py.round. split; [eexists; reflexivity |].
  destruct (round_half_even_bounds (x * pow10 n)) as [Hlo Hhi].
  pose proof (pow10_pos n) as Hp.
  set (k := Qc_of_Z (round_half_even (x * pow10 n))) in *.
  set (p := pow10 n) in *. clearbody k p.
  assert (Hne : p ≠ 0) by (intros E; rewrite E in Hp; revert Hp; qc_lra).
  assert (E1 : x - Q2Qc 0.5 / p = (x * p - Q2Qc 0.5) / p)
    by (field; exact Hne).
  assert (E2 : x + Q2Qc 0.5 / p = (x * p + Q2Qc 0.5) / p)
    by (field; exact Hne).
  rewrite E1, E2. split; apply div_le_mono_pos; try exact Hp; qc_lra.
Qed.

(* ===================================================================== *)
(** * Federal income tax                                                   *)
(* ===================================================================== *)

Lemma max0_nonneg y : 0 ≤ Py.max 0 y.
Proof. split_minmax; [assumption | apply Qcle_refl]. Qed.

Lemma max0_nonpos y : y ≤ 0 → Py.max 0 y = 0.
Proof. intros H. split_minmax; [qc_lra | reflexivity]. Qed.

Lemma max0_pos y : 0 ≤ y → Py.max 0 y = y.
Proof. intros H. split_minmax; [reflexivity | qc_lra]. Qed.

Lemma mult_nonneg a b : 0 ≤ a → 0 ≤ b → 0 ≤ a * b.
Proof. intros Ha Hb. qc_push. apply Qmult_le_0_compat; assumption. Qed.

Lemma rate_sandwich r rmax d :
  0 ≤ r → r ≤ rmax → 0 ≤ d → 0 ≤ d * r ∧ d * r ≤ d * rmax.
Proof.
  intros Hr Hrm Hd. split; [apply mult_nonneg; assumption |].
  assert (H : 0 ≤ d * (rmax - r)) by (apply mult_nonneg; [|qc_lra]; done).
  qc_lra.
Qed.

Lemma brackets_table_ok : brackets_ok 0 TOP_RATE FEDERAL_BRACKETS_SINGLE_2025.
Proof. simpl. repeat split; qc_eval. Qed.

Lemma federal_loop_ge brackets : ∀ prev rmax taxable tax,
  brackets_ok prev rmax brackets →
  tax ≤ federal_loop brackets taxable tax prev.
Proof.
  induction brackets as [|[[upper|] rate] rest IH];
    intros prev rmax taxable tax Hok; simpl.
  - apply Qcle_refl.
  - destruct Hok as (Hr & _ & _ & Hrest).
    pose proof (mult_nonneg _ _
      (max0_nonneg (Py.min taxable upper - prev)) Hr) as Hinc.
    case_decide.
    + qc_lra.
    + eapply Qcle_trans; [| apply (IH _ _ _ _ Hrest)]. qc_lra.
  - destruct Hok as (Hr & _ & ->). simpl.
    pose proof (mult_nonneg _ _ (max0_nonneg (taxable - prev)) Hr). qc_lra.
Qed.

(** Once the taxable income is covered, later brackets add nothing. *)
Lemma bracket_sum_covered brackets : ∀ prev rmax taxable,
  brackets_ok prev rmax brackets → taxable ≤ prev →
  bracket_sum brackets taxable prev = 0.
Proof.
  induction brackets as [|[[upper|] rate] rest IH];
    intros prev rmax taxable Hok Hle; simpl.
  - reflexivity.
  - destruct Hok as (_ & _ & Hpu & Hrest).
    rewrite (IH upper rmax) by (try assumption; qc_lra).
    rewrite max0_nonpos; [qc_push; ring |].
    split_minmax; qc_lra.
  - destruct Hok as (_ & _ & ->). simpl.
    rewrite max0_nonpos by qc_lra. qc_push; ring.
Qed.

(** The loop with its early exit computes the full sum over brackets. *)
Lemma federal_loop_bracket_sum brackets : ∀ prev rmax taxable tax,
  brackets_ok prev rmax brackets →
  federal_loop brackets taxable tax prev
  = tax + bracket_sum brackets taxable prev.
Proof.
  induction brackets as [|[[upper|] rate] rest IH];
    intros prev rmax taxable tax Hok; simpl.
  - qc_push; ring.
  - destruct Hok as (_ & _ & Hpu & Hrest). case_decide as Hle.
    + rewrite (bracket_sum_covered rest upper rmax) by assumption.
      qc_push; ring.
    + rewrite (IH upper rmax) by assumption. qc_push; ring.
  - destruct Hok as (_ & _ & ->). simpl. qc_push; ring.
Qed.

(** Between two taxable incomes the accumulated tax grows, and by no more
    than the largest rate times the extra income. *)
Lemma federal_loop_sandwich brackets : ∀ prev rmax t1 t2 tax1 tax2,
  brackets_ok prev rmax brackets → 0 ≤ rmax → prev ≤ t1 → t1 ≤ t2 →
  tax2 - tax1
    ≤ federal_loop brackets t2 tax2 prev - federal_loop brackets t1 tax1 prev
  ∧ federal_loop brackets t2 tax2 prev - federal_loop brackets t1 tax1 prev
    ≤ (tax2 - tax1) + (t2 - t1) * rmax.
Proof.
  induction brackets as [|[[upper|] rate] rest IH];
    intros prev rmax t1 t2 tax1 tax2 Hok Hrmax Hp H12; simpl.
  - assert (0 ≤ (t2 - t1) * rmax) by (apply mult_nonneg; [qc_lra | done]).
    split; qc_lra.
  - destruct Hok as (Hr & Hrm & Hpu & Hrest).
    destruct (decide (t1 ≤ upper)) as [H1|H1];
      destruct (decide (t2 ≤ upper)) as [H2|H2].
    + (* both incomes end in this bracket *)
      rewrite !(max0_pos (Py.min _ upper - prev)) by (split_minmax; qc_lra).
      assert (E1 : Py.min t1 upper = t1) by (split_minmax; qc_lra).
      assert (E2 : Py.min t2 upper = t2) by (split_minmax; qc_lra).
      rewrite E1, E2.
      destruct (rate_sandwich rate rmax (t2 - t1)); [done | done | qc_lra |].
      split; qc_lra.
    + (* the lower income ends here, the higher one goes on *)
      rewrite !(max0_pos (Py.min _ upper - prev)) by (split_minmax; qc_lra).
      assert (E1 : Py.min t1 upper = t1) by (split_minmax; qc_lra).
      assert (E2 : Py.min t2 upper = upper) by (split_minmax; qc_lra).
      rewrite E1, E2.
      set (tax2' := tax2 + (upper - prev) * rate).
      pose proof (federal_loop_ge rest upper rmax t2 tax2' Hrest) as Hge.
      destruct (IH upper rmax upper t2 tax2' tax2' Hrest Hrmax) as [_ Hup];
        [apply Qcle_refl | qc_lra |].
      assert (E : federal_loop rest upper tax2' upper = tax2').
      { rewrite (federal_loop_bracket_sum rest upper rmax) by done.
        rewrite (bracket_sum_covered rest upper rmax);
          [qc_push; ring | done | apply Qcle_refl]. }
      rewrite E in Hup.
      destruct (rate_sandwich rate rmax (upper - t1)); [done | done | qc_lra |].
      subst tax2'. split; qc_lra.
    + exfalso. qc_lra.
    + (* both incomes go on to the next bracket *)
      rewrite !(max0_pos (Py.min _ upper - prev)) by (split_minmax; qc_lra).
      assert (E1 : Py.min t1 upper = upper) by (split_minmax; qc_lra).
      assert (E2 : Py.min t2 upper = upper) by (split_minmax; qc_lra).
      rewrite E1, E2.
      destruct (IH upper rmax t1 t2 (tax1 + (upper - prev) * rate)
                  (tax2 + (upper - prev) * rate) Hrest Hrmax)
        as [Hlo Hup]; [qc_lra | done |].
      split; qc_lra.
  - destruct Hok as (Hr & Hrm & ->). simpl.
    rewrite !max0_pos by qc_lra.
    destruct (rate_sandwich rate rmax (t2 - t1)); [done | done | qc_lra |].
    split; qc_lra.
Qed.

Lemma taxable_sandwich a b :
  a ≤ b →
  Py.max 0 (a - STANDARD_DEDUCTION_SINGLE)
    ≤ Py.max 0 (b - STANDARD_DEDUCTION_SINGLE)
  ∧ Py.max 0 (b - STANDARD_DEDUCTION_SINGLE)
    - Py.max 0 (a - STANDARD_DEDUCTION_SINGLE) ≤ b - a.
Proof. intros Hab. split_minmax; split; qc_lra. Qed.

Lemma federal_tax_unrounded_mono a b :
  a ≤ b → federal_tax_unrounded a ≤ federal_tax_unrounded b.
Proof.
  intros Hab. unfold federal_tax_unrounded.
  destruct (taxable_sandwich a b Hab) as [Ht _].
  destruct (federal_loop_sandwich FEDERAL_BRACKETS_SINGLE_2025 0 TOP_RATE
              (Py.max 0 (a - STANDARD_DEDUCTION_SINGLE))
              (Py.max 0 (b - STANDARD_DEDUCTION_SINGLE))
              0 0 brackets_table_ok) as [Hlo _];
    [qc_eval | apply max0_nonneg | exact Ht |].
  qc_lra.
Qed.

Lemma federal_tax_unrounded_slope a b :
  a ≤ b →
  federal_tax_unrounded b - federal_tax_unrounded a ≤ TOP_RATE * (b - a).
Proof.
  intros Hab. unfold federal_tax_unrounded.
  destruct (taxable_sandwich a b Hab) as [Ht Hd].
  destruct (federal_loop_sandwich FEDERAL_BRACKETS_SINGLE_2025 0 TOP_RATE
              (Py.max 0 (a - STANDARD_DEDUCTION_SINGLE))
              (Py.max 0 (b - STANDARD_DEDUCTION_SINGLE))
              0 0 brackets_table_ok) as [_ Hup];
    [qc_eval | apply max0_nonneg | exact Ht |].
  set (ta := Py.max 0 (a - STANDARD_DEDUCTION_SINGLE)) in *.
  set (tb := Py.max 0 (b - STANDARD_DEDUCTION_SINGLE)) in *.
  assert (0 ≤ ((b - a) - (tb - ta)) * TOP_RATE)
    by (apply mult_nonneg; [qc_lra | qc_eval]).
  qc_lra.
Qed.

(** C3: with the 2025 single-filer constants, the federal tax on 60,000 is
    exactly 5,161.50 and on 100,000 exactly 13,614.00. *)
Theorem federal_tax_known_values :
  compute_federal_tax (Q2Qc 60000) = Q2Qc 5161.50
  ∧ compute_federal_tax (Q2Qc 100000) = Q2Qc 13614.00.
Proof. split; qc_eval. Qed.

(** C10: a gross income between 0 and the standard deduction (15,000) owes
    no federal tax: the taxable income clamps to zero and no bracket
    contributes. *)
Theorem federal_tax_zero_below_deduction (gross_income : Qc) :
  0 ≤ gross_income → gross_income ≤ Q2Qc 15000 →
  compute_federal_tax gross_income = 0.
Proof.
  intros H0 H1. unfold compute_federal_tax, federal_tax_unrounded.
  rewrite max0_nonpos by (unfold STANDARD_DEDUCTION_SINGLE; qc_lra).
  qc_eval.
Qed.

Lemma federal_tax_zero_below_deduction_witness :
  compute_federal_tax (Q2Qc 12000) = 0.
Proof.
  apply (federal_tax_zero_below_deduction (Q2Qc 12000)); qc_eval.
Defined.

(** C9, as the specification states it, fails on the returned (rounded)
    amount: between 15,000.04 and 15,000.06 the tax goes from 0.00 to 0.01,
    half a dollar per extra dollar of income, above the top rate 0.37. *)
Lemma federal_tax_slope_counterexample :
  ¬ (compute_federal_tax (Q2Qc 15000.04) ≤ compute_federal_tax (Q2Qc 15000.06)
     ∧ compute_federal_tax (Q2Qc 15000.06) - compute_federal_tax (Q2Qc 15000.04)
       ≤ TOP_RATE * (Q2Qc 15000.06 - Q2Qc 15000.04)).
Proof.
  intros [_ H]. revert H. apply Qclt_not_le. qc_eval.
Qed.

(** C9, amended: [compute_federal_tax] is non-decreasing in gross income;
    the tax accumulated before the final [round(tax, 2)] is the
    piecewise-linear sum over the brackets of rate times the portion of
    taxable income in the bracket and grows by at most 0.37 per extra dollar;
    the rounded result grows by at most 0.37 per extra dollar plus one
    cent. *)
Theorem federal_tax_monotone_bounded_slope (a b : Qc) :
  a ≤ b →
  compute_federal_tax a ≤ compute_federal_tax b
  ∧ federal_tax_unrounded b
    = bracket_sum FEDERAL_BRACKETS_SINGLE_2025
        (Py.max 0 (b - STANDARD_DEDUCTION_SINGLE)) 0
  ∧ federal_tax_unrounded b - federal_tax_unrounded a ≤ TOP_RATE * (b - a)
  ∧ compute_federal_tax b - compute_federal_tax a
    ≤ TOP_RATE * (b - a) + Q2Qc 0.01.
Proof.
  intros Hab. split; [| split; [| split]].
  - unfold compute_federal_tax.
    apply round_mono, federal_tax_unrounded_mono, Hab.
  - unfold federal_tax_unrounded.
    rewrite (federal_loop_bracket_sum _ 0 TOP_RATE) by apply brackets_table_ok.
    apply Qcplus_0_l.
  - apply federal_tax_unrounded_slope, Hab.
  - pose proof (federal_tax_unrounded_slope a b Hab) as Hs.
    unfold compute_federal_tax.
    destruct (round2_bounds (federal_tax_unrounded a)) as [Ha _].
    destruct (round2_bounds (federal_tax_unrounded b)) as [_ Hb].
    qc_lra.
Qed.

Lemma federal_tax_monotone_bounded_slope_witness :
  compute_federal_tax (Q2Qc 60000) ≤ compute_federal_tax (Q2Qc 100000)
  ∧ federal_tax_unrounded (Q2Qc 100000)
    = bracket_sum FEDERAL_BRACKETS_SINGLE_2025
        (Py.max 0 (Q2Qc 100000 - STANDARD_DEDUCTION_SINGLE)) 0
  ∧ federal_tax_unrounded (Q2Qc 100000) - federal_tax_unrounded (Q2Qc 60000)
    ≤ TOP_RATE * (Q2Qc 100000 - Q2Qc 60000)
  ∧ compute_federal_tax (Q2Qc 100000) - compute_federal_tax (Q2Qc 60000)
    ≤ TOP_RATE * (Q2Qc 100000 - Q2Qc 60000) + Q2Qc 0.01.
Proof.
  apply (federal_tax_monotone_bounded_slope (Q2Qc 60000) (Q2Qc 100000)).
  qc_eval.
Defined.

(* ===================================================================== *)
(** * FICA                                                                 *)
(* ===================================================================== *)

(** C4: for a non-negative gross income, Social Security is 6.2% of
    [min(gross_income, 176100)] rounded to cents, hence exactly 10,918.20
    from the wage base upwards; the Medicare surcharge is 0 up to 200,000
    and 0.9% of the excess over 200,000, rounded to cents, above it. *)
Theorem fica_cap_and_surcharge (gross_income : Qc) :
  0 ≤ gross_income →
  rounded_to 2 (Py.min gross_income (Q2Qc 176100) * Q2Qc 0.062)
    (social_security (compute_fica gross_income))
  ∧ (Q2Qc 176100 ≤ gross_income →
      social_security (compute_fica gross_income) = Q2Qc 10918.20)
  ∧ (gross_income ≤ Q2Qc 200000 →
      medicare_surcharge (compute_fica gross_income) = 0)
  ∧ (Q2Qc 200000 < gross_income →
      rounded_to 2 ((gross_income - Q2Qc 200000) * Q2Qc 0.009)
        (medicare_surcharge (compute_fica gross_income))).
Proof.
  intros _. unfold compute_fica; cbn [social_security medicare_surcharge].
  unfold SS_WAGE_BASE, SS_RATE, MEDICARE_SURCHARGE_THRESHOLD,
    MEDICARE_SURCHARGE_RATE.
  split; [| split; [| split]].
  - apply round_rounded_to.
  - intros Hcap.
    assert (E : Py.min gross_income (Q2Qc 176100) = Q2Qc 176100)
      by (split_minmax; [qc_lra | reflexivity]).
    rewrite E. qc_eval.
  - intros Hle. case_decide as Hlt; [exfalso; qc_lra | reflexivity].
  - intros Hgt. case_decide as Hlt; [apply round_rounded_to | contradiction].
Qed.

Lemma fica_cap_and_surcharge_witness :
  rounded_to 2 (Py.min (Q2Qc 250000) (Q2Qc 176100) * Q2Qc 0.062)
    (social_security (compute_fica (Q2Qc 250000)))
  ∧ (Q2Qc 176100 ≤ Q2Qc 250000 →
      social_security (compute_fica (Q2Qc 250000)) = Q2Qc 10918.20)
  ∧ (Q2Qc 250000 ≤ Q2Qc 200000 →
      medicare_surcharge (compute_fica (Q2Qc 250000)) = 0)
  ∧ (Q2Qc 200000 < Q2Qc 250000 →
      rounded_to 2 ((Q2Qc 250000 - Q2Qc 200000) * Q2Qc 0.009)
        (medicare_surcharge (compute_fica (Q2Qc 250000)))).
Proof. apply (fica_cap_and_surcharge (Q2Qc 250000)). qc_eval. Defined.

(* ===================================================================== *)
(** * State income tax                                                     *)
(* ===================================================================== *)

Lemma ok_intro (m : result Qc) (q : Qc) :
  match m with Ok v => v = q | Raise _ => False end → m = Ok q.
Proof. destruct m; [intros -> | intros []]; reflexivity. Qed.

(** Evaluates a closed computation that returns an amount. *)
Ltac result_eval :=
  apply ok_intro; vm_compute; apply Qc_is_canon; reflexivity.

(** A computation that returns, and whose value satisfies [P]. *)
Lemma ok_with {A} (m : result A) (P : A → Prop) :
  match m with Ok a => P a | Raise _ => False end → ∃ a, m = Ok a ∧ P a.
Proof. destruct m as [a|e]; [eauto | intros []]. Qed.

(** Decides a closed decidable proposition by evaluation. *)
Ltac by_eval := apply (bool_decide_unpack _); vm_compute; exact I.

Lemma div_ok a b : b ≠ 0 → Py.div a b = Ok (a / b).
Proof. intros Hb. unfold Py.div. case_decide; [contradiction | reflexivity]. Qed.

Lemma interpolate_loop_total schedule income :
  schedule ≠ [] → is_ok (interpolate_loop schedule income).
Proof.
  induction schedule as [|[lo_inc lo_rate] tail IH]; intros Hne;
    [contradiction |].
  destruct tail as [|[hi_inc hi_rate] tail'].
  - eexists; reflexivity.
  - cbn [interpolate_loop]. case_decide as Hin.
    + case_decide as Heq; [eexists; reflexivity |].
      rewrite div_ok by (intros E; apply Heq; qc_lra).
      eexists; reflexivity.
    + apply IH. discriminate.
Qed.

Lemma interpolate_rate_total schedule income :
  schedule ≠ [] → is_ok (_interpolate_rate schedule income).
Proof.
  intros Hne. unfold _interpolate_rate.
  destruct schedule as [|[a r] [|p tail]];
    [contradiction | eexists; reflexivity |].
  apply interpolate_loop_total. discriminate.
Qed.

(** No pair of adjacent breakpoints brackets an income above every
    threshold: the loop falls through to [schedule[-1][1]]. *)
Lemma interpolate_loop_beyond schedule income threshold rate :
  Forall (λ p, p.1 < income) schedule →
  last schedule = Some (threshold, rate) →
  interpolate_loop schedule income = Ok rate.
Proof.
  induction schedule as [|[lo_inc lo_rate] tail IH]; intros Hall Hlast;
    [discriminate |].
  destruct tail as [|[hi_inc hi_rate] tail'].
  - simpl in Hlast. injection Hlast as -> ->. reflexivity.
  - cbn [interpolate_loop]. inversion Hall as [|? ? _ Htail]; subst.
    inversion Htail as [|? ? Hhi _]; subst. simpl in Hhi.
    case_decide as Hin; [exfalso; destruct Hin; qc_lra |].
    apply IH; [assumption | exact Hlast].
Qed.

Lemma ascending_below_last schedule threshold rate :
  ascending schedule → last schedule = Some (threshold, rate) →
  Forall (λ p, p.1 ≤ threshold) schedule.
Proof.
  induction schedule as [|[lo_inc lo_rate] tail IH]; intros Hasc Hlast;
    [constructor |].
  destruct tail as [|[hi_inc hi_rate] tail'].
  - simpl in Hlast. injection Hlast as -> ->.
    constructor; [apply Qcle_refl | constructor].
  - destruct Hasc as [Hle Hasc].
    specialize (IH Hasc Hlast).
    constructor; [| exact IH].
    inversion IH as [|? ? Hhi _]; subst. simpl in *.
    eapply Qcle_trans; eassumption.
Qed.

Lemma interpolate_rate_beyond schedule income threshold rate :
  ascending schedule → last schedule = Some (threshold, rate) →
  threshold < income →
  _interpolate_rate schedule income = Ok rate.
Proof.
  intros Hasc Hlast Hlt.
  assert (Hloop : interpolate_loop schedule income = Ok rate).
  { apply (interpolate_loop_beyond _ _ threshold); [| assumption].
    eapply Forall_impl; [apply (ascending_below_last _ _ _ Hasc Hlast) |].
    intros p Hp. simpl in Hp. eapply Qcle_lt_trans; eassumption. }
  unfold _interpolate_rate.
  destruct schedule as [|[a r] [|p tail]]; [discriminate | | exact Hloop].
  simpl in Hlast. injection Hlast as -> ->. reflexivity.
Qed.

(** The guard [if hi_inc == lo_inc: return lo_rate]: a zero-width segment
    reached at its own threshold answers the lower rate; nothing is
    divided. *)
Lemma interpolate_loop_zero_width x lo_rate hi_rate rest :
  interpolate_loop ((x, lo_rate) :: (x, hi_rate) :: rest) x = Ok lo_rate.
Proof.
  cbn [interpolate_loop].
  case_decide as Hin; [| exfalso; apply Hin; split; apply Qcle_refl].
  case_decide; [reflexivity | contradiction].
Qed.

Ltac zero_width_case :=
  let x := fresh "x" in let r := fresh "r" in let Hin := fresh "Hin" in
  intros x r Hin;
  match type of Hin with
  | _ ∈ ?l =>
      let l' := eval vm_compute in l in
      replace l with l' in Hin by (vm_compute; reflexivity)
  end;
  repeat match goal with
  | H : _ ∈ [] |- _ => apply elem_of_nil in H; destruct H
  | H : _ ∈ (_ :: _) |- _ =>
      apply elem_of_cons in H; destruct H as [H|H]; [injection H as -> -> |]
  end;
  result_eval.

(** Proves [Forall P l] for a literal list [l], running [tac] on each
    element's goal. *)
Ltac forall_items tac :=
  lazymatch goal with
  | |- Forall _ [] => apply Forall_nil_2
  | |- Forall _ (_ :: _) => apply Forall_cons_2; [tac | forall_items tac]
  end.

Lemma schedule_table_facts :
  Forall (λ item, schedule_facts item.2) STATE_TAX_SCHEDULE_items.
Proof.
  unfold STATE_TAX_SCHEDULE_items.
  forall_items ltac:(
    cbn [snd]; split; [discriminate | split];
    [cbn [ascending bp]; repeat split; qc_eval | zero_width_case]).
Qed.

Lemma schedule_lookup_facts state schedule :
  STATE_TAX_SCHEDULE !! state = Some schedule → schedule_facts schedule.
Proof.
  intros Hlook. apply elem_of_list_to_map_2 in Hlook.
  pose proof schedule_table_facts as Hall.
  rewrite Forall_forall in Hall. apply (Hall _ Hlook).
Qed.

(** C6: on every schedule of the state-tax table and every income >= 0 the
    rate interpolation returns a rate (it raises nothing, in particular no
    [ZeroDivisionError]); beyond the final breakpoint it returns the last
    breakpoint's rate; at a zero-width segment (two consecutive breakpoints
    with one threshold, as in Virginia's table) it returns the lower
    breakpoint's rate, by the guard that answers before dividing. *)
Theorem interpolation_total (state : string) (schedule : list (Qc * Qc))
    (income : Qc) :
  STATE_TAX_SCHEDULE !! state = Some schedule → 0 ≤ income →
  is_ok (_interpolate_rate schedule income)
  ∧ (∀ threshold rate,
       last schedule = Some (threshold, rate) → threshold < income →
       _interpolate_rate schedule income = Ok rate)
  ∧ (∀ x lo_rate,
       (x, lo_rate) ∈ zero_width_pairs schedule →
       _interpolate_rate schedule x = Ok lo_rate)
  ∧ (∀ x lo_rate hi_rate rest,
       interpolate_loop ((x, lo_rate) :: (x, hi_rate) :: rest) x
       = Ok lo_rate).
Proof.
  intros Hlook _.
  destruct (schedule_lookup_facts _ _ Hlook) as (Hne & Hasc & Hzero).
  split; [| split; [| split]].
  - apply interpolate_rate_total, Hne.
  - intros threshold rate. apply interpolate_rate_beyond, Hasc.
  - exact Hzero.
  - apply interpolate_loop_zero_width.
Qed.

Lemma lookup_Virginia : STATE_TAX_SCHEDULE !! "Virginia" = Some VIRGINIA.
Proof. vm_compute. reflexivity. Qed.

Lemma interpolation_total_witness :
  is_ok (_interpolate_rate VIRGINIA (Q2Qc 17001))
  ∧ (∀ threshold rate,
       last VIRGINIA = Some (threshold, rate) → threshold < Q2Qc 17001 →
       _interpolate_rate VIRGINIA (Q2Qc 17001) = Ok rate)
  ∧ (∀ x lo_rate,
       (x, lo_rate) ∈ zero_width_pairs VIRGINIA →
       _interpolate_rate VIRGINIA x = Ok lo_rate)
  ∧ (∀ x lo_rate hi_rate rest,
       interpolate_loop ((x, lo_rate) :: (x, hi_rate) :: rest) x
       = Ok lo_rate).
Proof.
  apply (interpolation_total "Virginia" VIRGINIA (Q2Qc 17001)).
  - exact lookup_Virginia.
  - qc_eval.
Defined.

(** Virginia's table has one zero-width segment, at 17,001, whose lower
    breakpoint carries the rate 0.030; that is the rate returned there. *)
Example Virginia_zero_width :
  zero_width_pairs VIRGINIA = [bp 17001 0.030]
  ∧ _interpolate_rate VIRGINIA (Q2Qc 17001) = Ok (Q2Qc 0.030).
Proof. split; [vm_compute; reflexivity | result_eval]. Qed.

(** C5: for a state whose schedule has exactly one breakpoint and every
    gross income >= 0, the state tax is the gross income times that
    breakpoint's rate, rounded to cents (so exactly 0 where the rate is 0);
    on 100,000 in Texas it is exactly 0.00. *)
Theorem flat_state_tax (state : string) (threshold rate gross_income : Qc) :
  STATE_TAX_SCHEDULE !! state = Some [(threshold, rate)] →
  0 ≤ gross_income →
  (∃ tax,
     compute_state_tax gross_income state = Ok tax
     ∧ rounded_to 2 (gross_income * rate) tax
     ∧ (rate = 0 → tax = 0))
  ∧ compute_state_tax (Q2Qc 100000) "Texas" = Ok (Q2Qc 0.00).
Proof.
  intros Hlook _. split.
  - exists (Py.round (gross_income * rate) 2). split; [| split].
    + unfold compute_state_tax. rewrite Hlook. reflexivity.
    + apply round_rounded_to.
    + intros ->. rewrite Qcmult_0_r. apply round_0.
  - result_eval.
Qed.

Lemma flat_state_tax_witness :
  (∃ tax,
     compute_state_tax (Q2Qc 55555) "North Carolina" = Ok tax
     ∧ rounded_to 2 (Q2Qc 55555 * Q2Qc 0.045) tax
     ∧ (Q2Qc 0.045 = 0 → tax = 0))
  ∧ compute_state_tax (Q2Qc 100000) "Texas" = Ok (Q2Qc 0.00).
Proof.
  apply (flat_state_tax "North Carolina" (Q2Qc 0) (Q2Qc 0.045)
           (Q2Qc 55555)).
  - vm_compute. reflexivity.
  - qc_eval.
Defined.

(* ===================================================================== *)
(** * Expenditure engine                                                   *)
(* ===================================================================== *)

Lemma bind_Ok {A B} (m : result A) (k : A → result B) (b : B) :
  m ≫= k = Ok b → ∃ a, m = Ok a ∧ k a = Ok b.
Proof. destruct m as [a|e]; [eauto | discriminate]. Qed.

Lemma pow_trunc_one_l : pow_one_l pow_trunc.
Proof.
  intros y. unfold pow_trunc. case_decide; rewrite Qcpower_1; [reflexivity |].
  qc_eval.
Qed.

Lemma pow_trunc_nonneg : pow_nonneg pow_trunc.
Proof.
  intros x y Hx. unfold pow_trunc.
  assert (Hp : ∀ n, 0 ≤ x ^ n)
    by (intros n; apply Qcpower_pos, Qclt_le_weak, Hx).
  case_decide; [apply Hp |].
  specialize (Hp (Z.to_nat (- Qfloor y))). qc_push.
  apply Qinv_le_0_compat. exact Hp.
Qed.

Lemma scale_at_reference pow bls_amount x beta :
  pow_one_l pow → 0 < x → _scale_expenditure pow bls_amount x x beta = Ok bls_amount.
Proof.
  intros Hpow Hx. unfold _scale_expenditure.
  case_decide as Hg; [reflexivity |].
  rewrite div_ok by (intros E; qc_lra). cbn.
  assert (E : x / x = 1) by (qc_push; field; lra).
  rewrite E, Hpow. f_equal. apply Qcmult_1_r.
Qed.

(** C7: at the reference income the Engel scaling is the identity, for
    every baseline and every elasticity; and with a reference income or a
    salary that is not positive the baseline is returned unscaled. *)
Theorem scale_identity (pow : Qc → Qc → Qc)
    (baseline beta X salary reference_income : Qc) :
  pow_one_l pow →
  (0 < X → _scale_expenditure pow baseline X X beta = Ok baseline)
  ∧ (reference_income ≤ 0 ∨ salary ≤ 0 →
     _scale_expenditure pow baseline salary reference_income beta
     = Ok baseline).
Proof.
  intros Hpow. split.
  - apply scale_at_reference, Hpow.
  - intros Hdeg. unfold _scale_expenditure.
    case_decide; [reflexivity | contradiction].
Qed.

Lemma scale_identity_witness :
  (0 < Q2Qc 62000 →
   _scale_expenditure pow_trunc (Q2Qc 9630) (Q2Qc 62000) (Q2Qc 62000)
     (Q2Qc 0.55) = Ok (Q2Qc 9630))
  ∧ (0 ≤ 0 ∨ Q2Qc 50000 ≤ 0 →
     _scale_expenditure pow_trunc (Q2Qc 9630) (Q2Qc 50000) 0 (Q2Qc 0.55)
     = Ok (Q2Qc 9630)).
Proof.
  apply (scale_identity pow_trunc (Q2Qc 9630) (Q2Qc 0.55) (Q2Qc 62000)
           (Q2Qc 50000) 0).
  exact pow_trunc_one_l.
Defined.

Lemma scale_nonneg pow bls_amount salary avg_income beta v :
  pow_nonneg pow → 0 ≤ bls_amount →
  _scale_expenditure pow bls_amount salary avg_income beta = Ok v → 0 ≤ v.
Proof.
  intros Hpow Hb. unfold _scale_expenditure.
  case_decide as Hg; [intros [= <-]; exact Hb |].
  assert (Ha : 0 < avg_income) by (apply Qcnot_le_lt; tauto).
  assert (Hs : 0 < salary) by (apply Qcnot_le_lt; tauto).
  rewrite div_ok by (intros E; qc_lra). cbn. intros [= <-].
  apply mult_nonneg; [exact Hb |]. apply Hpow.
  qc_push. apply Qlt_shift_div_l; lra.
Qed.


Lemma get_nonneg (row : gmap string Qc) cat :
  (∀ v, row !! cat = Some v → 0 ≤ v) → 0 ≤ Py.get row cat 0.
Proof.
  intros H. unfold Py.get. destruct (row !! cat) as [v|]; [auto |].
  apply Qcle_refl.
Qed.

Lemma essential_fractions_unit :
  Forall (λ item, 0 ≤ item.2 ∧ item.2 ≤ 1) ESSENTIAL_FRACTIONS_items.
Proof.
  unfold ESSENTIAL_FRACTIONS_items.
  forall_items ltac:(cbn [snd]; split; qc_eval).
Qed.

(** Every essential fraction alpha lies in [[0, 1]]. *)
Lemma alpha_unit cat :
  0 ≤ Py.get ESSENTIAL_FRACTIONS cat 0 ∧ Py.get ESSENTIAL_FRACTIONS cat 0 ≤ 1.
Proof.
  unfold Py.get. destruct (ESSENTIAL_FRACTIONS !! cat) as [v|] eqn:E.
  - apply elem_of_list_to_map_2 in E.
    pose proof essential_fractions_unit as Hall.
    rewrite Forall_forall in Hall. apply (Hall _ E).
  - split; qc_eval.
Qed.

Lemma category_loop_inv pow cats : ∀ age_data region_data w_age w_reg
    salary avg_income st st',
  pow_nonneg pow →
  (∀ cat v, age_data !! cat = Some v → 0 ≤ v) →
  (∀ cat v, region_data !! cat = Some v → 0 ≤ v) →
  0 ≤ w_age → 0 ≤ w_reg →
  loop_inv st →
  category_loop pow cats age_data region_data w_age w_reg salary avg_income st
    = Ok st' →
  loop_inv st'.
Proof.
  induction cats as [|cat rest IH];
    intros age_data region_data w_age w_reg salary avg_income
      [[bc te] ta] st' Hpow Hage Hreg Hwa Hwr [Hbc Htot]; cbn [fst snd] in *.
  - intros [= <-]. split; assumption.
  - cbn [category_loop]. intros Hrun.
    apply bind_Ok in Hrun as (sc & Hsc & Hrun).
    assert (Hbase : 0 ≤ w_age * Py.get age_data cat 0
                        + w_reg * Py.get region_data cat 0).
    { pose proof (mult_nonneg _ _ Hwa (get_nonneg age_data cat (Hage cat))).
      pose proof (mult_nonneg _ _ Hwr (get_nonneg region_data cat (Hreg cat))).
      qc_lra. }
    pose proof (scale_nonneg _ _ _ _ _ _ Hpow Hbase Hsc) as Hsc0.
    destruct (alpha_unit cat) as [Ha0 Ha1].
    set (alpha := Py.get ESSENTIAL_FRACTIONS cat 0) in *.
    assert (Hess : sc * alpha ≤ sc).
    { assert (0 ≤ sc * (1 - alpha)) by (apply mult_nonneg; [done | qc_lra]).
      qc_lra. }
    eapply IH; [exact Hpow | exact Hage | exact Hreg | exact Hwa | exact Hwr
               | | exact Hrun].
    split; cbn [fst snd].
    + intros c e. rewrite lookup_insert. case_decide.
      * intros [= <-]. exact Hess.
      * apply Hbc.
    + qc_lra.
Qed.


(** C8: with a table of non-negative baselines, in every result of
    [compute_essential_expenses] the essential amount of each category is
    at most its scaled amount, and [total_essential] is at most
    [total_all]. *)
Theorem essential_le_total (pow : Qc → Qc → Qc) (salary : Qc) (age : Z)
    (state : string) (data : exp_data) (use_region_blend : bool)
    (res : expenses) :
  pow_nonneg pow → nonneg_baselines data →
  compute_essential_expenses pow salary age state data use_region_blend
    = Ok res →
  (∀ cat entry, by_category res !! cat = Some entry →
     essential entry ≤ scaled entry)
  ∧ total_essential res ≤ total_all res.
Proof.
  intros Hpow [Hage Hreg]. unfold compute_essential_expenses. intros Hrun.
  apply bind_Ok in Hrun as (group & _ & Hrun).
  apply bind_Ok in Hrun as (reg & _ & Hrun).
  apply bind_Ok in Hrun as (fallback & _ & Hrun).
  apply bind_Ok in Hrun as (age_data & Hadata & Hrun).
  apply bind_Ok in Hrun as (region_data & Hrdata & Hrun).
  apply bind_Ok in Hrun as ([[bc te] ta] & Hloop & Hrun).
  apply bind_Ok in Hrun as (ratio & _ & Hrun).
  injection Hrun as <-. cbn [by_category total_essential total_all].
  unfold Py.subscript in Hadata, Hrdata.
  destruct (by_age data !! group) as [row_a|] eqn:Ea; [| discriminate].
  destruct (by_region data !! reg) as [row_r|] eqn:Er; [| discriminate].
  injection Hadata as ->. injection Hrdata as ->.
  apply category_loop_inv in Hloop as [Hbc Htot]; cbn [fst snd] in *.
  - split; [exact Hbc | apply round_mono, Htot].
  - exact Hpow.
  - intros cat v. apply (Hage _ _ _ _ Ea).
  - intros cat v. apply (Hreg _ _ _ _ Er).
  - destruct use_region_blend; qc_eval.
  - destruct use_region_blend; qc_eval.
  - split; cbn [fst snd]; [intros cat e; rewrite lookup_empty; discriminate
                           | apply Qcle_refl].
Qed.

Lemma sample_data_nonneg : nonneg_baselines sample_data.
Proof.
  split; intros key r cat v Hrow Hv; cbn [by_age by_region sample_data] in Hrow;
    apply elem_of_list_to_map_2 in Hrow;
    repeat (apply elem_of_cons in Hrow as [Hrow|Hrow];
            [injection Hrow as -> -> |]);
    try (apply elem_of_nil in Hrow; destruct Hrow);
    unfold row in Hv; apply elem_of_list_to_map_2 in Hv;
    repeat (apply elem_of_cons in Hv as [Hv|Hv]; [injection Hv as -> -> |]);
    try (apply elem_of_nil in Hv; destruct Hv);
    qc_eval.
Qed.

Lemma essential_le_total_witness :
  ∃ res,
    compute_essential_expenses pow_trunc (Q2Qc 60000) 30 "Texas" sample_data
      true = Ok res
    ∧ (∀ cat entry, by_category res !! cat = Some entry →
         essential entry ≤ scaled entry)
    ∧ total_essential res ≤ total_all res.
Proof.
  assert (∃ res, compute_essential_expenses pow_trunc (Q2Qc 60000) 30 "Texas"
                   sample_data true = Ok res ∧ True) as (res & E & _)
    by (apply ok_with; vm_compute; exact I).
  exists res. split; [exact E |].
  exact (essential_le_total pow_trunc (Q2Qc 60000) 30 "Texas" sample_data
           true res pow_trunc_nonneg sample_data_nonneg E).
Defined.

(* ===================================================================== *)
(** * Composition layer                                                    *)
(* ===================================================================== *)



Lemma rate_of_total x gross_income : is_ok (rate_of x gross_income).
Proof.
  unfold rate_of. case_decide as Hg; [| eexists; reflexivity].
  rewrite div_ok by (intros E; qc_lra). eexists; reflexivity.
Qed.



Lemma all_taxes_unknown_state gross_income state :
  STATE_TAX_SCHEDULE !! state = None →
  compute_all_taxes gross_income state
  = Raise (ValueError StateNotInSchedule).
Proof.
  intros Hnone. unfold compute_all_taxes, compute_state_tax.
  rewrite Hnone. reflexivity.
Qed.









(** A negative disposable income is an ordinary result: with no income the
    essential expenses of the sample table stay uncovered. *)
Example negative_disposable_income :
  ∃ res,
    compute_disposable_income pow_trunc 0 22 "Texas" sample_data true = Ok res
    ∧ r_disposable_income res = Q2Qc (-36044.1)
    ∧ r_di_fraction res = 0.
Proof.
  apply ok_with. vm_compute. split; apply Qc_is_canon; reflexivity.
Qed.






(** Oregon has a region but no tax schedule: the call raises, it does not
    fall back to another jurisdiction. *)
Example Oregon_is_unknown :
  compute_disposable_income pow_trunc (Q2Qc 100) 22 "Oregon" sample_data true
  = Raise (ValueError StateNotInSchedule).
Proof. vm_compute. reflexivity. Qed.

(* ===================================================================== *)
(** * Further properties of the tax engine                                 *)
(* ===================================================================== *)

Lemma federal_tax_zero g :
  0 ≤ g → g ≤ Q2Qc 15000 → compute_federal_tax g = 0.
Proof.
  intros H0 H1. unfold compute_federal_tax, federal_tax_unrounded.
  rewrite max0_nonpos by (unfold STANDARD_DEDUCTION_SINGLE; qc_lra).
  qc_eval.
Qed.

Lemma federal_tax_mono a b :
  a ≤ b → compute_federal_tax a ≤ compute_federal_tax b.
Proof.
  intros Hab. unfold compute_federal_tax.
  apply round_mono, federal_tax_unrounded_mono, Hab.
Qed.

Lemma cents_round x : cents (Py.round x 2).
Proof. eexists. reflexivity. Qed.

Lemma cents_0 : cents 0.
Proof. exists 0%Z. qc_eval. Qed.

Lemma cents_plus a b : cents a → cents b → cents (a + b).
Proof.
  intros [k ->] [l ->]. exists (k + l)%Z.
  pose proof (pow10_pos 2) as Hp.
  qc_push. rewrite inject_Z_plus. field. lra.
Qed.

(** Rounding to cents leaves an amount in whole cents as it is. *)
Lemma round_cents q : cents q → Py.round q 2 = q.
Proof. intros [k ->]. apply round_of_Z_div. Qed.

Lemma round_nonneg x n : 0 ≤ x → 0 ≤ Py.round x n.
Proof. intros Hx. rewrite <- (round_0 n). apply round_mono, Hx. Qed.

Lemma federal_tax_unrounded_nonneg g : 0 ≤ federal_tax_unrounded g.
Proof.
  unfold federal_tax_unrounded.
  apply (federal_loop_ge _ 0 TOP_RATE), brackets_table_ok.
Qed.

Lemma federal_tax_nonneg g : 0 ≤ compute_federal_tax g.
Proof.
  unfold compute_federal_tax. apply round_nonneg, federal_tax_unrounded_nonneg.
Qed.

Lemma federal_tax_below_top_rate g :
  0 < g → compute_federal_tax g < TOP_RATE * g.
Proof.
  intros Hg. destruct (decide (g ≤ Q2Qc 15000)) as [Hle|Hgt].
  - rewrite federal_tax_zero
      by (try assumption; apply Qclt_le_weak, Hg).
    assert (0 < TOP_RATE) by qc_eval.
    assert (H0 : 0 ≤ TOP_RATE * g) by (apply mult_nonneg; qc_lra).
    assert (Hne : TOP_RATE * g ≠ 0).
    { intros E. qc_push. apply Qmult_integral in E. destruct E; lra. }
    qc_lra.
  - assert (Hgt' : Q2Qc 15000 < g) by (apply Qcnot_le_lt, Hgt).
    pose proof (federal_tax_unrounded_slope (Q2Qc 15000) g
                  (Qclt_le_weak _ _ Hgt')) as Hs.
    assert (E0 : federal_tax_unrounded (Q2Qc 15000) = 0) by qc_eval.
    rewrite E0 in Hs. unfold compute_federal_tax.
    destruct (round2_bounds (federal_tax_unrounded g)) as [_ Hb].
    unfold TOP_RATE in *. qc_lra.
Qed.

(** X1: [compute_effective_federal_rate] never raises (its division is
    guarded), and the rate it returns is at least 0, is 0 up to the standard
    deduction, and stays strictly below the top bracket's rate 0.37 for
    every income up to a billion: over 15,000 the tax is at least 5,550
    short of 37% of the income, a margin that float division keeps in that
    range (it wears off near 10^20). *)
Theorem effective_federal_rate_bounds (gross_income : Qc) :
  ∃ rate,
    compute_effective_federal_rate gross_income = Ok rate
    ∧ 0 ≤ rate
    ∧ (gross_income ≤ Q2Qc 1000000000 → rate < TOP_RATE)
    ∧ (gross_income ≤ Q2Qc 15000 → rate = 0).
Proof.
  unfold compute_effective_federal_rate. case_decide as Hle.
  - exists 0. split; [reflexivity |].
    split; [apply Qcle_refl | split; [intros _; qc_eval | reflexivity]].
  - assert (Hg : 0 < gross_income) by (apply Qcnot_le_lt, Hle).
    rewrite div_ok by (intros E; qc_lra). eexists. split; [reflexivity |].
    pose proof (federal_tax_nonneg gross_income) as H0.
    pose proof (federal_tax_below_top_rate gross_income Hg) as H1.
    split; [| split].
    + qc_push. apply Qle_shift_div_l; lra.
    + intros _. qc_push. apply Qlt_shift_div_r; lra.
    + intros Hd. rewrite federal_tax_zero
        by (try assumption; apply Qclt_le_weak, Hg).
      qc_push. field. lra.
Qed.

Lemma fica_sums gross_income :
  medicare (compute_fica gross_income)
    = medicare_base (compute_fica gross_income)
      + medicare_surcharge (compute_fica gross_income)
  ∧ fica_total (compute_fica gross_income)
    = social_security (compute_fica gross_income)
      + medicare (compute_fica gross_income).
Proof.
  unfold compute_fica; cbn [medicare medicare_base medicare_surcharge
                             fica_total social_security].
  split; apply round_cents, cents_plus; try apply cents_round.
  case_decide; [apply cents_round | apply cents_0].
Qed.

Lemma min_mono a b c : a ≤ b → Py.min a c ≤ Py.min b c.
Proof. intros H. split_minmax; qc_lra. Qed.

Lemma mult_le_mono_nonneg a b c : 0 ≤ c → a ≤ b → a * c ≤ b * c.
Proof. intros Hc Hab. apply Qcmult_le_compat_r; assumption. Qed.

Lemma fica_parts_mono a b :
  a ≤ b →
  social_security (compute_fica a) ≤ social_security (compute_fica b)
  ∧ medicare_base (compute_fica a) ≤ medicare_base (compute_fica b)
  ∧ medicare_surcharge (compute_fica a)
    ≤ medicare_surcharge (compute_fica b).
Proof.
  intros Hab. split; [| split].
  - unfold compute_fica; cbn [social_security].
    apply round_mono, mult_le_mono_nonneg; [qc_eval | apply min_mono, Hab].
  - unfold compute_fica; cbn [medicare_base].
    apply round_mono, mult_le_mono_nonneg; [qc_eval | exact Hab].
  - unfold compute_fica; cbn [medicare_surcharge].
    destruct (decide (MEDICARE_SURCHARGE_THRESHOLD < a)) as [Ha|Ha];
      destruct (decide (MEDICARE_SURCHARGE_THRESHOLD < b)) as [Hb|Hb].
    + apply round_mono, mult_le_mono_nonneg; [qc_eval | qc_lra].
    + exfalso. apply Hb. eapply Qclt_le_trans; eassumption.
    + apply round_nonneg, mult_nonneg; [qc_lra | qc_eval].
    + apply Qcle_refl.
Qed.

Lemma fica_total_mono a b :
  a ≤ b → fica_total (compute_fica a) ≤ fica_total (compute_fica b).
Proof.
  intros Hab. destruct (fica_parts_mono a b Hab) as (Hss & Hbase & Hsur).
  destruct (fica_sums a) as [Ema Eta]. destruct (fica_sums b) as [Emb Etb].
  rewrite Eta, Etb, Ema, Emb. qc_lra.
Qed.

(** X2: the Medicare base of [compute_fica] is 1.45% of the whole gross
    income, rounded to cents, with no cap; Medicare is never below its base,
    and up to 200,000 Medicare is the base itself: the surcharge is 0 there
    and rounding an amount in cents again changes nothing. *)
Theorem medicare_parts (gross_income : Qc) :
  rounded_to 2 (gross_income * Q2Qc 0.0145)
    (medicare_base (compute_fica gross_income))
  ∧ medicare_base (compute_fica gross_income)
    ≤ medicare (compute_fica gross_income)
  ∧ (gross_income ≤ Q2Qc 200000 →
     medicare (compute_fica gross_income)
     = medicare_base (compute_fica gross_income)).
Proof.
  unfold compute_fica; cbn [medicare medicare_base medicare_surcharge].
  unfold MEDICARE_RATE.
  split; [apply round_rounded_to |].
  set (base := Py.round (gross_income * Q2Qc 0.0145) 2).
  assert (Hb : Py.round base 2 = base) by (apply round_cents, cents_round).
  split.
  - apply Qcle_trans with (Py.round base 2);
      [rewrite Hb; apply Qcle_refl | apply round_mono].
    case_decide as Hlt; [| rewrite Qcplus_0_r; apply Qcle_refl].
    assert (0 ≤ Py.round ((gross_income - MEDICARE_SURCHARGE_THRESHOLD)
                          * MEDICARE_SURCHARGE_RATE) 2)
      by (apply round_nonneg, mult_nonneg; [qc_lra | qc_eval]).
    clearbody base. qc_lra.
  - intros Hle.
    case_decide as Hlt;
      [exfalso; unfold MEDICARE_SURCHARGE_THRESHOLD in Hlt; qc_lra |].
    rewrite Qcplus_0_r. exact Hb.
Qed.

(** X3: every part of [compute_fica] is non-decreasing in the gross income:
    Social Security, the Medicare base, the surcharge, Medicare and the
    total. *)
Theorem fica_monotone (a b : Qc) :
  a ≤ b →
  social_security (compute_fica a) ≤ social_security (compute_fica b)
  ∧ medicare_base (compute_fica a) ≤ medicare_base (compute_fica b)
  ∧ medicare_surcharge (compute_fica a)
    ≤ medicare_surcharge (compute_fica b)
  ∧ medicare (compute_fica a) ≤ medicare (compute_fica b)
  ∧ fica_total (compute_fica a) ≤ fica_total (compute_fica b).
Proof.
  intros Hab. destruct (fica_parts_mono a b Hab) as (Hss & Hbase & Hsur).
  destruct (fica_sums a) as [Ema Eta]. destruct (fica_sums b) as [Emb Etb].
  assert (Hmed : medicare (compute_fica a) ≤ medicare (compute_fica b))
    by (rewrite Ema, Emb; qc_lra).
  repeat (split; [assumption |]).
  rewrite Eta, Etb. qc_lra.
Qed.

Lemma fica_monotone_witness :
  social_security (compute_fica (Q2Qc 60000))
    ≤ social_security (compute_fica (Q2Qc 250000))
  ∧ medicare_base (compute_fica (Q2Qc 60000))
    ≤ medicare_base (compute_fica (Q2Qc 250000))
  ∧ medicare_surcharge (compute_fica (Q2Qc 60000))
    ≤ medicare_surcharge (compute_fica (Q2Qc 250000))
  ∧ medicare (compute_fica (Q2Qc 60000))
    ≤ medicare (compute_fica (Q2Qc 250000))
  ∧ fica_total (compute_fica (Q2Qc 60000))
    ≤ fica_total (compute_fica (Q2Qc 250000)).
Proof. apply (fica_monotone (Q2Qc 60000) (Q2Qc 250000)). qc_eval. Defined.

Lemma strictly_ascending_head_lt a ra tail :
  strictly_ascending ((a, ra) :: tail) → Forall (λ p, a < p.1) tail.
Proof.
  revert a ra. induction tail as [|[b rb] tail IH]; intros a ra Hasc;
    [constructor |].
  destruct Hasc as [Hab Htail]. constructor; [exact Hab |].
  eapply Forall_impl; [apply (IH b rb Htail) |].
  intros p Hp. simpl in Hp. eapply Qclt_trans; eassumption.
Qed.

Lemma interpolate_loop_hits_breakpoints schedule x r :
  strictly_ascending schedule → (x, r) ∈ schedule →
  interpolate_loop schedule x = Ok r.
Proof.
  induction schedule as [|[a ra] tail IH]; intros Hasc Hin.
  - apply elem_of_nil in Hin. destruct Hin.
  - destruct tail as [|[b rb] tail'].
    + apply elem_of_cons in Hin as [[= -> ->]|Hin]; [reflexivity |].
      apply elem_of_nil in Hin. destruct Hin.
    + pose proof (strictly_ascending_head_lt _ _ _ Hasc) as Hhead.
      destruct Hasc as [Hab Htail]. cbn [interpolate_loop].
      apply elem_of_cons in Hin as [[= -> ->]|Hin].
      * (* the lower end of the first segment *)
        case_decide as Hseg;
          [| exfalso; apply Hseg; split; [apply Qcle_refl | qc_lra]].
        case_decide as Heq; [exfalso; qc_lra |].
        rewrite div_ok by (intros E; qc_lra).
        cbn [mbind result_bind Py.bind]. f_equal. qc_push. field. lra.
      * pose proof (strictly_ascending_head_lt _ _ _ Htail) as Hsnd.
        apply elem_of_cons in Hin as Hin'. destruct Hin' as [[= -> ->]|Hin'].
        -- (* the upper end of the first segment *)
           case_decide as Hseg;
             [| exfalso; apply Hseg; split; [qc_lra | apply Qcle_refl]].
           case_decide as Heq; [exfalso; qc_lra |].
           rewrite div_ok by (intros E; qc_lra).
           cbn [mbind result_bind Py.bind]. f_equal. qc_push. field. lra.
        -- (* a later breakpoint: the first segment ends below it *)
           rewrite Forall_forall in Hsnd. specialize (Hsnd _ Hin').
           simpl in Hsnd.
           case_decide as Hseg; [exfalso; destruct Hseg; qc_lra |].
           apply IH; assumption.
Qed.

Lemma schedule_table_strict :
  Forall (λ item, item.1 ≠ "Virginia" → strictly_ascending item.2)
    STATE_TAX_SCHEDULE_items.
Proof.
  unfold STATE_TAX_SCHEDULE_items.
  forall_items ltac:(
    cbn [fst snd]; intros Hne;
    first [ exfalso; apply Hne; reflexivity
          | cbn [strictly_ascending bp]; repeat split; qc_eval ]).
Qed.

(** X4: in every state of the table but Virginia (whose schedule repeats a
    threshold) the income thresholds strictly increase and the interpolation
    passes through every breakpoint: at a breakpoint's income the effective
    rate is that breakpoint's rate. *)
Theorem interpolation_hits_breakpoints (state : string)
    (schedule : list (Qc * Qc)) (income rate : Qc) :
  STATE_TAX_SCHEDULE !! state = Some schedule → state ≠ "Virginia" →
  (income, rate) ∈ schedule →
  strictly_ascending schedule
  ∧ _interpolate_rate schedule income = Ok rate.
Proof.
  intros Hlook Hne Hin.
  assert (Hasc : strictly_ascending schedule).
  { pose proof schedule_table_strict as Hall. rewrite Forall_forall in Hall.
    apply (Hall (state, schedule)); [| exact Hne].
    apply elem_of_list_to_map_2, Hlook. }
  split; [exact Hasc |].
  pose proof (interpolate_loop_hits_breakpoints _ _ _ Hasc Hin) as Hloop.
  unfold _interpolate_rate.
  destruct schedule as [|[a ra] [|p tail]]; exact Hloop.
Qed.

Lemma interpolation_hits_breakpoints_witness :
  strictly_ascending CALIFORNIA
  ∧ _interpolate_rate CALIFORNIA (Q2Qc 100000) = Ok (Q2Qc 0.078).
Proof.
  apply (interpolation_hits_breakpoints "California" CALIFORNIA
           (Q2Qc 100000) (Q2Qc 0.078)).
  - vm_compute. reflexivity.
  - discriminate.
  - do 4 apply list_elem_of_further. apply list_elem_of_here.
Defined.

Lemma interpolate_loop_outside schedule income :
  Forall (λ p, income < p.1) schedule ∨ Forall (λ p, p.1 < income) schedule →
  interpolate_loop schedule income
  = match last schedule with
    | Some p => Ok p.2
    | None => Raise IndexError
    end.
Proof.
  induction schedule as [|[a ra] tail IH]; intros Hout; [reflexivity |].
  destruct tail as [|[b rb] tail']; [reflexivity |].
  cbn [interpolate_loop].
  destruct (decide (a ≤ income ∧ income ≤ b)) as [[Ha Hb]|_].
  - exfalso. destruct Hout as [H|H].
    + apply Forall_cons in H as [H _]. cbn [fst] in H. qc_lra.
    + apply Forall_cons in H as [_ H]. apply Forall_cons in H as [H _].
      cbn [fst] in H. qc_lra.
  - change (last ((a, ra) :: (b, rb) :: tail'))
      with (last ((b, rb) :: tail')).
    apply IH. destruct Hout as [H|H]; [left | right];
      apply Forall_cons in H as [_ H]; exact H.
Qed.

(** X5: an income outside a schedule, below every threshold or above every
    threshold, gets the rate of the LAST breakpoint: no segment holds it, so
    the loop falls through to [schedule[-1][1]].  Below the first threshold
    of a schedule with several breakpoints this is the top rate, not the
    first one; an empty schedule raises IndexError. *)
Theorem interpolation_outside_schedule (schedule : list (Qc * Qc))
    (income : Qc) :
  Forall (λ p, income < p.1) schedule ∨ Forall (λ p, p.1 < income) schedule →
  _interpolate_rate schedule income
  = match last schedule with
    | Some p => Ok p.2
    | None => Raise IndexError
    end.
Proof.
  intros Hout. unfold _interpolate_rate.
  destruct schedule as [|[a ra] [|q tail]];
    [reflexivity | reflexivity |].
  apply interpolate_loop_outside, Hout.
Qed.

Lemma interpolation_outside_schedule_witness :
  _interpolate_rate CALIFORNIA (Q2Qc (-1000)) = Ok (Q2Qc 0.120).
Proof.
  apply (interpolation_outside_schedule CALIFORNIA (Q2Qc (-1000))).
  left. unfold CALIFORNIA. forall_items ltac:(cbn [fst bp]; qc_eval).
Defined.

Lemma interpolate_loop_within lo hi schedule income r :
  rates_within lo hi schedule →
  interpolate_loop schedule income = Ok r → lo ≤ r ∧ r ≤ hi.
Proof.
  induction schedule as [|[a ra] tail IH]; intros Hall Hrun; [discriminate |].
  apply Forall_cons in Hall as [[Hra_lo Hra_hi] Htail]. simpl in Hra_lo, Hra_hi.
  destruct tail as [|[b rb] tail'].
  - injection Hrun as <-. split; assumption.
  - cbn [interpolate_loop] in Hrun.
    pose proof Htail as Htail'.
    apply Forall_cons in Htail' as [[Hrb_lo Hrb_hi] _].
    simpl in Hrb_lo, Hrb_hi.
    case_decide as Hseg; [| apply IH; assumption].
    destruct Hseg as [Hlo Hhi].
    case_decide as Heq; [injection Hrun as <-; split; assumption |].
    rewrite div_ok in Hrun by (intros E; apply Heq; qc_lra).
    cbn [mbind result_bind Py.bind] in Hrun. injection Hrun as <-.
    assert (Hab : a < b) by qc_lra.
    set (f := (income - a) / (b - a)).
    assert (Hf : 0 ≤ f ∧ f ≤ 1).
    { subst f. split; qc_push;
        [apply Qle_shift_div_l | apply Qle_shift_div_r]; lra. }
    destruct Hf as [Hf0 Hf1].
    assert (0 ≤ (1 - f) * (ra - lo)) by (apply mult_nonneg; qc_lra).
    assert (0 ≤ f * (rb - lo)) by (apply mult_nonneg; qc_lra).
    assert (0 ≤ (1 - f) * (hi - ra)) by (apply mult_nonneg; qc_lra).
    assert (0 ≤ f * (hi - rb)) by (apply mult_nonneg; qc_lra).
    split; qc_lra.
Qed.

Lemma interpolate_rate_within lo hi schedule income r :
  rates_within lo hi schedule →
  _interpolate_rate schedule income = Ok r → lo ≤ r ∧ r ≤ hi.
Proof.
  intros Hall. unfold _interpolate_rate.
  destruct schedule as [|[a ra] [|p tail]];
    try apply (interpolate_loop_within _ _ _ _ _ Hall).
  intros [= <-]. apply Forall_cons in Hall as [[? ?] _]. split; assumption.
Qed.

Lemma schedule_table_rates :
  Forall (λ item, rates_within 0 MAX_STATE_RATE item.2)
    STATE_TAX_SCHEDULE_items.
Proof.
  unfold STATE_TAX_SCHEDULE_items.
  forall_items ltac:(
    cbn [snd]; unfold rates_within;
    forall_items ltac:(cbn [snd bp]; split; qc_eval)).
Qed.

Lemma state_tax_run state schedule gross_income :
  STATE_TAX_SCHEDULE !! state = Some schedule →
  ∃ rate,
    _interpolate_rate schedule gross_income = Ok rate
    ∧ 0 ≤ rate ∧ rate ≤ MAX_STATE_RATE
    ∧ compute_state_tax gross_income state
      = Ok (Py.round (gross_income * rate) 2).
Proof.
  intros Hlook.
  destruct (schedule_lookup_facts _ _ Hlook) as (Hne & _ & _).
  destruct (interpolate_rate_total schedule gross_income Hne) as [rate Hrate].
  assert (Hin : rates_within 0 MAX_STATE_RATE schedule).
  { pose proof schedule_table_rates as Hall. rewrite Forall_forall in Hall.
    apply (Hall (state, schedule)), elem_of_list_to_map_2, Hlook. }
  destruct (interpolate_rate_within _ _ _ _ _ Hin Hrate) as [Hr0 Hr1].
  exists rate.
  split; [exact Hrate | split; [exact Hr0 | split; [exact Hr1 |]]].
  unfold compute_state_tax; rewrite Hlook, Hrate; reflexivity.
Qed.

(** X6: the effective rate of a state of the table never leaves the range
    of the table's rates, so for a gross income >= 0 the state tax is at
    least 0 and at most 12% of the gross income, rounded to cents. *)
Theorem state_tax_bounds (state : string) (schedule : list (Qc * Qc))
    (gross_income : Qc) :
  STATE_TAX_SCHEDULE !! state = Some schedule → 0 ≤ gross_income →
  ∃ rate tax,
    _interpolate_rate schedule gross_income = Ok rate
    ∧ 0 ≤ rate ∧ rate ≤ MAX_STATE_RATE
    ∧ compute_state_tax gross_income state = Ok tax
    ∧ 0 ≤ tax ∧ tax ≤ Py.round (MAX_STATE_RATE * gross_income) 2.
Proof.
  intros Hlook Hg.
  destruct (state_tax_run state schedule gross_income Hlook)
    as (rate & Hrate & Hr0 & Hr1 & Htax).
  exists rate, (Py.round (gross_income * rate) 2).
  split; [exact Hrate | split; [exact Hr0 | split; [exact Hr1 |]]].
  split; [exact Htax | split].
  - apply round_nonneg, mult_nonneg; assumption.
  - apply round_mono. rewrite (Qcmult_comm MAX_STATE_RATE).
    assert (0 ≤ gross_income * (MAX_STATE_RATE - rate))
      by (apply mult_nonneg; [assumption | qc_lra]).
    qc_lra.
Qed.

Lemma state_tax_bounds_witness :
  ∃ rate tax,
    _interpolate_rate CALIFORNIA (Q2Qc 65000) = Ok rate
    ∧ 0 ≤ rate ∧ rate ≤ MAX_STATE_RATE
    ∧ compute_state_tax (Q2Qc 65000) "California" = Ok tax
    ∧ 0 ≤ tax ∧ tax ≤ Py.round (MAX_STATE_RATE * Q2Qc 65000) 2.
Proof.
  apply (state_tax_bounds "California" CALIFORNIA (Q2Qc 65000)).
  - vm_compute. reflexivity.
  - qc_eval.
Defined.

Lemma fica_total_nonneg g : 0 ≤ g → 0 ≤ fica_total (compute_fica g).
Proof.
  intros Hg. pose proof (fica_total_mono 0 g Hg) as H.
  assert (E : fica_total (compute_fica 0) = 0) by qc_eval.
  rewrite E in H. exact H.
Qed.

Lemma rates_add_up (x g fed tax fica : Qc) :
  0 < g → x = fed + fica + tax →
  x / g * g = x ∧ x / g = fed / g + tax / g + fica / g.
Proof. intros H ->. split; qc_push; field; lra. Qed.

Lemma all_taxes_sum state gross_income tax :
  compute_state_tax gross_income state = Ok tax → cents tax →
  ∃ t,
    compute_all_taxes gross_income state = Ok t
    ∧ total t
      = compute_federal_tax gross_income
        + fica_total (compute_fica gross_income) + tax.
Proof.
  intros Htax Hctax. unfold compute_all_taxes. rewrite Htax.
  cbn [mbind result_bind Py.bind].
  assert (Hcfed : cents (compute_federal_tax gross_income))
    by (unfold compute_federal_tax; apply cents_round).
  assert (Hcfica : cents (fica_total (compute_fica gross_income)))
    by (unfold compute_fica; cbn [fica_total]; apply cents_round).
  set (fed := compute_federal_tax gross_income) in *.
  set (fi := compute_fica gross_income) in *.
  clearbody fed fi.
  assert (Htot : Py.round (fed + fica_total fi + tax) 2
                 = fed + fica_total fi + tax)
    by (apply round_cents; repeat apply cents_plus; assumption).
  rewrite Htot.
  destruct (rate_of_total (fed + fica_total fi + tax) gross_income)
    as [r1 ->].
  destruct (rate_of_total fed gross_income) as [r2 ->].
  destruct (rate_of_total tax gross_income) as [r3 ->].
  cbn [mbind result_bind Py.bind]. eexists. split; reflexivity.
Qed.

Lemma div_nonneg_pos (a g : Qc) : 0 < g → 0 ≤ a → 0 ≤ a / g.
Proof. intros Hg Ha. qc_push. apply Qle_shift_div_l; lra. Qed.

(** X7: for a state of the table and a gross income >= 0, [compute_all_taxes]
    returns, carrying the results of [compute_federal_tax], [compute_fica]
    and [compute_state_tax]; its total is their sum rounded to cents; none
    of the three is negative or above the total, and neither the federal nor
    the state rate is negative or above the total rate.  For an income of 0
    the total and the three rates are 0, no division happening. *)
Theorem all_taxes_consistent (state : string) (schedule : list (Qc * Qc))
    (gross_income : Qc) :
  STATE_TAX_SCHEDULE !! state = Some schedule → 0 ≤ gross_income →
  ∃ t,
    compute_all_taxes gross_income state = Ok t
    ∧ federal t = compute_federal_tax gross_income
    ∧ fica_part t = compute_fica gross_income
    ∧ compute_state_tax gross_income state = Ok (state_tax t)
    ∧ rounded_to 2 (federal t + fica_total (fica_part t) + state_tax t)
        (total t)
    ∧ (0 ≤ federal t ∧ federal t ≤ total t)
    ∧ (0 ≤ fica_total (fica_part t) ∧ fica_total (fica_part t) ≤ total t)
    ∧ (0 ≤ state_tax t ∧ state_tax t ≤ total t)
    ∧ (0 ≤ effective_federal_rate t
       ∧ effective_federal_rate t ≤ effective_total_rate t)
    ∧ (0 ≤ effective_state_rate t
       ∧ effective_state_rate t ≤ effective_total_rate t)
    ∧ (gross_income = 0 →
       total t = 0 ∧ effective_total_rate t = 0
       ∧ effective_federal_rate t = 0 ∧ effective_state_rate t = 0).
Proof.
  intros Hlook Hg.
  destruct (state_tax_run state schedule gross_income Hlook)
    as (rate & _ & Hr0 & _ & Htax).
  set (tax := Py.round (gross_income * rate) 2) in Htax.
  assert (Htax0 : 0 ≤ tax) by (apply round_nonneg, mult_nonneg; assumption).
  assert (Hctax : cents tax) by apply cents_round.
  assert (Hz3 : gross_income = 0 → tax = 0)
    by (intros E; subst tax; rewrite E, Qcmult_0_l; apply round_0).
  clearbody tax.
  unfold compute_all_taxes. rewrite Htax. cbn [mbind result_bind Py.bind].
  pose proof (federal_tax_nonneg gross_income) as Hfed0.
  pose proof (fica_total_nonneg gross_income Hg) as Hfica0.
  assert (Hcfed : cents (compute_federal_tax gross_income))
    by (unfold compute_federal_tax; apply cents_round).
  assert (Hcfica : cents (fica_total (compute_fica gross_income)))
    by (unfold compute_fica; cbn [fica_total]; apply cents_round).
  assert (Hz1 : gross_income = 0 → compute_federal_tax gross_income = 0)
    by (intros E; rewrite E; apply federal_tax_zero; qc_eval).
  assert (Hz2 : gross_income = 0 → fica_total (compute_fica gross_income) = 0)
    by (intros E; rewrite E; qc_eval).
  set (fed := compute_federal_tax gross_income) in *.
  set (fi := compute_fica gross_income) in *.
  clearbody fed fi.
  assert (Htot : Py.round (fed + fica_total fi + tax) 2
                 = fed + fica_total fi + tax)
    by (apply round_cents; repeat apply cents_plus; assumption).
  pose proof (round_rounded_to (fed + fica_total fi + tax) 2) as Hround.
  set (tot := Py.round (fed + fica_total fi + tax) 2) in *.
  assert (Hle : fed ≤ tot ∧ fica_total fi ≤ tot ∧ tax ≤ tot)
    by (clear -Htot Hfed0 Hfica0 Htax0; repeat split; qc_lra).
  destruct Hle as (Hle1 & Hle2 & Hle3).
  clearbody tot.
  unfold rate_of. case_decide as Hpos.
  - assert (Hne : gross_income ≠ 0) by (clear -Hpos; intros E; qc_lra).
    rewrite !div_ok by exact Hne. cbn [mbind result_bind Py.bind].
    eexists. split; [reflexivity |].
    cbn [total federal fica_part state_tax effective_total_rate
         effective_federal_rate effective_state_rate].
    do 3 (split; [reflexivity |]). split; [exact Hround |].
    do 3 (split; [split; assumption |]).
    split; [split; [apply div_nonneg_pos | apply div_le_mono_pos];
            assumption |].
    split; [split; [apply div_nonneg_pos | apply div_le_mono_pos];
            assumption |].
    intros E. contradiction.
  - cbn [mbind result_bind Py.bind]. eexists. split; [reflexivity |].
    cbn [total federal fica_part state_tax effective_total_rate
         effective_federal_rate effective_state_rate].
    do 3 (split; [reflexivity |]). split; [exact Hround |].
    do 3 (split; [split; assumption |]).
    do 2 (split; [split; apply Qcle_refl |]).
    intros E. split; [| split; [| split]]; try reflexivity.
    rewrite Htot, (Hz1 E), (Hz2 E), (Hz3 E). apply Qcplus_0_r.
Qed.

Lemma all_taxes_consistent_witness :
  ∃ t,
    compute_all_taxes (Q2Qc 65000) "California" = Ok t
    ∧ federal t = compute_federal_tax (Q2Qc 65000)
    ∧ fica_part t = compute_fica (Q2Qc 65000)
    ∧ compute_state_tax (Q2Qc 65000) "California" = Ok (state_tax t)
    ∧ rounded_to 2 (federal t + fica_total (fica_part t) + state_tax t)
        (total t)
    ∧ (0 ≤ federal t ∧ federal t ≤ total t)
    ∧ (0 ≤ fica_total (fica_part t) ∧ fica_total (fica_part t) ≤ total t)
    ∧ (0 ≤ state_tax t ∧ state_tax t ≤ total t)
    ∧ (0 ≤ effective_federal_rate t
       ∧ effective_federal_rate t ≤ effective_total_rate t)
    ∧ (0 ≤ effective_state_rate t
       ∧ effective_state_rate t ≤ effective_total_rate t)
    ∧ (Q2Qc 65000 = 0 →
       total t = 0 ∧ effective_total_rate t = 0
       ∧ effective_federal_rate t = 0 ∧ effective_state_rate t = 0).
Proof.
  apply (all_taxes_consistent "California" CALIFORNIA (Q2Qc 65000)).
  - vm_compute. reflexivity.
  - qc_eval.
Defined.

(* ===================================================================== *)
(** * Further properties of the expenditure engine and the composition     *)
(* ===================================================================== *)

(** X8: [get_age_group] returns the label of the band that contains the
    age, for every integer age from 0 to 999 (so "Under 25" up to 24 and
    "75 and older" from 75 on), and raises the out-of-range [ValueError]
    for every other age. *)
Theorem age_group_bands (age : Z) :
  ((0 ≤ age ∧ age ≤ 999)%Z →
   ∃ lo hi label,
     get_age_group age = Ok label
     ∧ (lo, hi, label) ∈ _AGE_BREAKS ∧ (lo ≤ age ∧ age ≤ hi)%Z)
  ∧ ((age ≤ 24)%Z → (0 ≤ age)%Z → get_age_group age = Ok "Under 25")
  ∧ ((75 ≤ age)%Z → (age ≤ 999)%Z → get_age_group age = Ok "75 and older")
  ∧ (¬ (0 ≤ age ∧ age ≤ 999)%Z →
     get_age_group age = Raise (ValueError AgeOutOfRange)).
Proof.
  unfold get_age_group, _AGE_BREAKS. cbn [age_group_loop].
  split; [| split; [| split]].
  - intros Hage.
    repeat case_decide; try (exfalso; lia);
      do 3 eexists; (split; [reflexivity |]);
      (split; [| eassumption]);
      repeat first [apply list_elem_of_here | apply list_elem_of_further].
  - intros H1 H0. repeat case_decide; try (exfalso; lia); reflexivity.
  - intros H1 H0. repeat case_decide; try (exfalso; lia); reflexivity.
  - intros Hout. repeat case_decide; try (exfalso; lia); reflexivity.
Qed.





(** What a returned [compute_essential_expenses] went through. *)
Lemma essential_expenses_inv pow salary age state data blend res :
  compute_essential_expenses pow salary age state data blend = Ok res →
  ∃ row_a row_r te ta,
    by_age data !! age_group res = Some row_a
    ∧ by_region data !! region res = Some row_r
    ∧ category_loop pow (categories data) row_a row_r
        (blend_w_age blend) (blend_w_reg blend) salary
        (avg_income_for_age_group res) (∅, 0, 0)
      = Ok (by_category res, te, ta)
    ∧ total_essential res = Py.round te 2
    ∧ total_all res = Py.round ta 2.
Proof.
  unfold compute_essential_expenses. intros Hrun.
  apply bind_Ok in Hrun as (group & _ & Hrun).
  apply bind_Ok in Hrun as (reg & _ & Hrun).
  apply bind_Ok in Hrun as (fallback & _ & Hrun).
  apply bind_Ok in Hrun as (row_a & Ha & Hrun).
  apply bind_Ok in Hrun as (row_r & Hr & Hrun).
  apply bind_Ok in Hrun as ([[bc te] ta] & Hloop & Hrun).
  apply bind_Ok in Hrun as (ratio & _ & Hrun).
  injection Hrun as <-.
  cbn [by_category total_essential total_all age_group region
       avg_income_for_age_group].
  unfold Py.subscript in Ha, Hr.
  destruct (by_age data !! group) as [row_a'|] eqn:Ea; [| discriminate].
  destruct (by_region data !! reg) as [row_r'|] eqn:Er; [| discriminate].
  injection Ha as ->. injection Hr as ->.
  exists row_a, row_r, te, ta. repeat (split; [reflexivity |]).
  split; [exact Hloop | split; reflexivity].
Qed.

Lemma blend_weights_nonneg blend :
  0 ≤ blend_w_age blend ∧ 0 ≤ blend_w_reg blend.
Proof. destruct blend; split; qc_eval. Qed.

Lemma category_loop_essential_nonneg pow cats : ∀ age_data region_data
    w_age w_reg salary avg_income bc te ta bc' te' ta',
  pow_nonneg pow →
  (∀ cat v, age_data !! cat = Some v → 0 ≤ v) →
  (∀ cat v, region_data !! cat = Some v → 0 ≤ v) →
  0 ≤ w_age → 0 ≤ w_reg → 0 ≤ te →
  category_loop pow cats age_data region_data w_age w_reg salary avg_income
    (bc, te, ta) = Ok (bc', te', ta') →
  0 ≤ te'.
Proof.
  induction cats as [|cat rest IH];
    intros age_data region_data w_age w_reg salary avg_income
      bc te ta bc' te' ta' Hpow Hage Hreg Hwa Hwr Hte.
  - intros [= _ <- _]. exact Hte.
  - cbn [category_loop]. intros Hrun.
    apply bind_Ok in Hrun as (sc & Hsc & Hrun).
    assert (Hbase : 0 ≤ w_age * Py.get age_data cat 0
                        + w_reg * Py.get region_data cat 0).
    { pose proof (mult_nonneg _ _ Hwa (get_nonneg age_data cat (Hage cat))).
      pose proof (mult_nonneg _ _ Hwr (get_nonneg region_data cat (Hreg cat))).
      qc_lra. }
    pose proof (scale_nonneg _ _ _ _ _ _ Hpow Hbase Hsc) as Hsc0.
    destruct (alpha_unit cat) as [Ha0 _].
    pose proof (mult_nonneg _ _ Hsc0 Ha0) as Hess.
    eapply IH; [exact Hpow | exact Hage | exact Hreg | exact Hwa | exact Hwr
               | | exact Hrun].
    clear -Hte Hess. qc_lra.
Qed.

Lemma essential_total_nonneg pow salary age state data blend res :
  pow_nonneg pow → nonneg_baselines data →
  compute_essential_expenses pow salary age state data blend = Ok res →
  0 ≤ total_essential res.
Proof.
  intros Hpow [Hage Hreg] Hrun.
  apply essential_expenses_inv in Hrun
    as (row_a & row_r & te & ta & Ea & Er & Hloop & -> & _).
  destruct (blend_weights_nonneg blend) as [Hwa Hwr].
  apply round_nonneg.
  eapply (category_loop_essential_nonneg pow); [exact Hpow | | | exact Hwa
    | exact Hwr | apply Qcle_refl | exact Hloop].
  - intros cat v. apply (Hage _ _ _ _ Ea).
  - intros cat v. apply (Hreg _ _ _ _ Er).
Qed.

Lemma essential_total_le_all pow salary age state data blend res :
  pow_nonneg pow → nonneg_baselines data →
  compute_essential_expenses pow salary age state data blend = Ok res →
  total_essential res ≤ total_all res.
Proof.
  intros Hpow [Hage Hreg] Hrun.
  apply essential_expenses_inv in Hrun
    as (row_a & row_r & te & ta & Ea & Er & Hloop & -> & ->).
  destruct (blend_weights_nonneg blend) as [Hwa Hwr].
  apply round_mono.
  apply (category_loop_inv pow) in Hloop as [_ Htot]; cbn [fst snd] in *;
    [exact Htot | exact Hpow | | | exact Hwa | exact Hwr |].
  - intros cat v. apply (Hage _ _ _ _ Ea).
  - intros cat v. apply (Hreg _ _ _ _ Er).
  - split; cbn [fst snd]; [intros cat e; rewrite lookup_empty; discriminate
                           | apply Qcle_refl].
Qed.

(** What a returned [compute_disposable_income] went through. *)
Lemma disposable_income_inv pow gross_income age state data blend res :
  compute_disposable_income pow gross_income age state data blend = Ok res →
  0 ≤ gross_income ∧ (0 ≤ age ∧ age ≤ 120)%Z
  ∧ ∃ t e,
      compute_all_taxes gross_income state = Ok t
      ∧ compute_essential_expenses pow gross_income age state data blend
        = Ok e
      ∧ r_total_tax res = total t
      ∧ r_total_essential res = total_essential e
      ∧ r_total_all_expenses res = total_all e
      ∧ r_expenses res = e
      ∧ r_disposable_income res
        = Py.round (gross_income - total t - total_essential e) 2
      ∧ r_di_fraction res
        = (if decide (0 < gross_income)
           then Py.round
                  ((gross_income - total t - total_essential e)
                   / gross_income) 4
           else 0).
Proof.
  unfold compute_disposable_income.
  case_decide as Hneg; [discriminate |].
  case_decide as Hout; [discriminate |]. intros Hrun.
  assert (Hg : 0 ≤ gross_income) by (apply Qcnot_lt_le, Hneg).
  assert (Hage : (0 ≤ age ∧ age ≤ 120)%Z)
    by (destruct (decide (0 ≤ age ∧ age ≤ 120)%Z); [assumption | contradiction]).
  split; [exact Hg | split; [exact Hage |]].
  apply bind_Ok in Hrun as (t & Ht & Hrun).
  apply bind_Ok in Hrun as (e & He & Hrun).
  apply bind_Ok in Hrun as (frac & Hfrac & Hrun).
  injection Hrun as <-. exists t, e.
  cbn [r_total_tax r_total_essential r_total_all_expenses r_expenses
       r_disposable_income r_di_fraction].
  repeat (split; [first [assumption | reflexivity] |]).
  case_decide as Hpos.
  - rewrite div_ok in Hfrac by (clear -Hpos; intros E; qc_lra).
    injection Hfrac as <-. reflexivity.
  - injection Hfrac as <-. apply round_0.
Qed.

Lemma all_taxes_total_nonneg gross_income state t :
  0 ≤ gross_income → compute_all_taxes gross_income state = Ok t →
  0 ≤ total t.
Proof.
  intros Hg Ht.
  destruct (STATE_TAX_SCHEDULE !! state) as [schedule|] eqn:Es.
  - destruct (state_tax_run state schedule gross_income Es)
      as (rate & _ & Hr0 & _ & Htax).
    destruct (all_taxes_sum _ _ _ Htax (cents_round _)) as (t' & Ht' & Htot).
    rewrite Ht in Ht'. injection Ht' as <-. rewrite Htot.
    pose proof (federal_tax_nonneg gross_income) as H1.
    pose proof (fica_total_nonneg gross_income Hg) as H2.
    assert (H3 : 0 ≤ Py.round (gross_income * rate) 2)
      by (apply round_nonneg, mult_nonneg; assumption).
    set (fed := compute_federal_tax gross_income) in *.
    set (fi := fica_total (compute_fica gross_income)) in *.
    set (st := Py.round (gross_income * rate) 2) in *.
    clearbody fed fi st. clear -H1 H2 H3. qc_lra.
  - rewrite (all_taxes_unknown_state _ _ Es) in Ht. discriminate.
Qed.

Lemma fraction_le_one (g x : Qc) : 0 < g → 0 ≤ x → (g - x) / g ≤ 1.
Proof. intros Hg Hx. qc_push. apply Qle_shift_div_r; lra. Qed.

(** X10: with a table of non-negative baselines, a result of
    [compute_disposable_income] never shows more than the income: its taxes
    total and its essential total are not negative, its essential total is
    at most its total of all expenses, its disposable income is at most the
    gross income rounded to cents, and its [di_fraction] is at most 1. *)
Theorem disposable_income_bounded (pow : Qc → Qc → Qc) (gross_income : Qc)
    (age : Z) (state : string) (data : exp_data) (use_region_blend : bool)
    (res : di_result) :
  pow_nonneg pow → nonneg_baselines data →
  compute_disposable_income pow gross_income age state data use_region_blend
    = Ok res →
  0 ≤ r_total_tax res ∧ 0 ≤ r_total_essential res
  ∧ r_total_essential res ≤ r_total_all_expenses res
  ∧ r_disposable_income res ≤ Py.round gross_income 2
  ∧ r_di_fraction res ≤ 1.
Proof.
  intros Hpow Hnn Hrun.
  apply disposable_income_inv in Hrun
    as (Hg & Hage & t & e & Ht & He & -> & -> & -> & _ & -> & ->).
  pose proof (all_taxes_total_nonneg _ _ _ Hg Ht) as Ht0.
  pose proof (essential_total_nonneg _ _ _ _ _ _ _ Hpow Hnn He) as He0.
  pose proof (essential_total_le_all _ _ _ _ _ _ _ Hpow Hnn He) as Hle.
  split; [exact Ht0 | split; [exact He0 | split; [exact Hle |]]].
  split.
  - apply round_mono. clear -Ht0 He0. qc_lra.
  - case_decide as Hpos; [| qc_eval].
    assert (E1 : Py.round 1 4 = 1) by qc_eval. rewrite <- E1.
    apply round_mono.
    replace (gross_income - total t - total_essential e)
      with (gross_income - (total t + total_essential e))
      by (clear; qc_push; ring).
    apply fraction_le_one; [exact Hpos |]. clear -Ht0 He0. qc_lra.
Qed.

Lemma disposable_income_bounded_witness :
  ∃ res,
    compute_disposable_income pow_trunc (Q2Qc 60000) 30 "Texas" sample_data
      true = Ok res
    ∧ 0 ≤ r_total_tax res ∧ 0 ≤ r_total_essential res
    ∧ r_total_essential res ≤ r_total_all_expenses res
    ∧ r_disposable_income res ≤ Py.round (Q2Qc 60000) 2
    ∧ r_di_fraction res ≤ 1.
Proof.
  assert (∃ res, compute_disposable_income pow_trunc (Q2Qc 60000) 30 "Texas"
                   sample_data true = Ok res ∧ True) as (res & E & _)
    by (apply ok_with; vm_compute; exact I).
  exists res. split; [exact E |].
  exact (disposable_income_bounded pow_trunc (Q2Qc 60000) 30 "Texas"
           sample_data true res pow_trunc_nonneg sample_data_nonneg E).
Defined.





(* ===================================================================== *)
(** * The loader's sanity checks                                           *)
(* ===================================================================== *)

Lemma and_then_Done {A B} (m : checked A) (k : A → checked B) (b : B) :
  and_then m k = Done b → ∃ a, m = Done a ∧ k a = Done b.
Proof. destruct m as [a| |e]; [eauto | discriminate | discriminate]. Qed.

Lemma assert_Done (P : Prop) `{Decision P} u : assert P = Done u → P.
Proof. unfold assert. case_decide; [auto | discriminate]. Qed.

Lemma item_Done {V} (d : gmap string V) k v :
  item d k = Done v → d !! k = Some v.
Proof. unfold item. destruct (d !! k); [intros [= ->]; reflexivity | discriminate]. Qed.

Lemma check_categories_sound by_age age cats :
  check_categories by_age age cats = Done tt →
  ∀ cat, cat ∈ cats →
    ∃ row v, by_age !! age = Some row ∧ row !! cat = Some v ∧ 0 < v.
Proof.
  induction cats as [|c rest IH]; intros Hrun cat Hin.
  - apply elem_of_nil in Hin. destruct Hin.
  - cbn [check_categories] in Hrun.
    apply and_then_Done in Hrun as (row & Hrow & Hrun).
    apply and_then_Done in Hrun as (u1 & _ & Hrun).
    apply and_then_Done in Hrun as (row' & Hrow' & Hrun).
    apply and_then_Done in Hrun as (v & Hv & Hrun).
    apply and_then_Done in Hrun as (u2 & Hpos & Hrun).
    apply item_Done in Hrow'. apply item_Done in Hv.
    apply assert_Done in Hpos.
    apply elem_of_cons in Hin as [-> | Hin]; [eauto | apply IH; assumption].
Qed.

Lemma check_ages_sound by_age ages :
  check_ages by_age ages = Done tt →
  ∀ age cat, age ∈ ages → cat ∈ KEY_CATEGORIES →
    ∃ row v, by_age !! age = Some row ∧ row !! cat = Some v ∧ 0 < v.
Proof.
  induction ages as [|a rest IH]; intros Hrun age cat Hin Hcat.
  - apply elem_of_nil in Hin. destruct Hin.
  - cbn [check_ages] in Hrun.
    apply and_then_Done in Hrun as ([] & Hcats & Hrun).
    apply elem_of_cons in Hin as [-> | Hin].
    + apply (check_categories_sound _ _ _ Hcats), Hcat.
    + apply IH; assumption.
Qed.

Lemma regions_are_four :
  ∀ state reg, STATE_TO_REGION !! state = Some reg →
  reg ∈ ({[ "Northeast"; "Midwest"; "South"; "West" ]} : gset string).
Proof.
  intros state reg Hreg. unfold STATE_TO_REGION in Hreg.
  apply elem_of_list_to_map_2 in Hreg.
  match type of Hreg with
  | _ ∈ ?l =>
      assert (Hall : Forall
        (λ item : string * string,
           item.2 ∈ ({[ "Northeast"; "Midwest"; "South"; "West" ]}
                     : gset string)) l)
        by (forall_items ltac:(cbn [snd]; by_eval))
  end.
  rewrite Forall_forall in Hall. apply (Hall _ Hreg).
Qed.

(** X12: a table that passes [validate_data] is fit for the engine: it has a
    row for every age group and for every region a state maps to (so
    [compute_disposable_income] raises no [KeyError] on it), and in every
    age group Food, Housing, Transportation and Healthcare are present and
    positive. *)
Theorem validate_data_sound (data : exp_data) :
  validate_data data = Done tt →
  well_formed data
  ∧ ∀ age cat, age ∈ _AGE_COLS.*1 → cat ∈ KEY_CATEGORIES →
      ∃ row v, by_age data !! age = Some row ∧ row !! cat = Some v ∧ 0 < v.
Proof.
  unfold validate_data. intros Hrun.
  apply and_then_Done in Hrun as (u1 & Hages & Hrun).
  apply and_then_Done in Hrun as (u2 & Hregs & Hrun).
  apply and_then_Done in Hrun as (u3 & Hcheck & Hrun).
  apply assert_Done in Hages. apply assert_Done in Hregs.
  destruct u3. split; [| apply (check_ages_sound _ _ Hcheck)].
  split.
  - intros lo hi group Hin. apply elem_of_dom. rewrite Hages.
    unfold _AGE_BREAKS in Hin.
    repeat (apply elem_of_cons in Hin as [Hin|Hin];
            [injection Hin as _ _ ->; by_eval |]).
    apply elem_of_nil in Hin. destruct Hin.
  - intros state reg Hreg. apply elem_of_dom. rewrite Hregs.
    apply (regions_are_four _ _ Hreg).
Qed.

Lemma validate_data_sound_witness :
  well_formed sample_data
  ∧ ∀ age cat, age ∈ _AGE_COLS.*1 → cat ∈ KEY_CATEGORIES →
      ∃ row v,
        by_age sample_data !! age = Some row ∧ row !! cat = Some v ∧ 0 < v.
Proof.
  apply (validate_data_sound sample_data). vm_compute. reflexivity.
Defined.

(* ===================================================================== *)
(** * The per-category breakdown                                           *)
(* ===================================================================== *)

(** A property of entries that every stored entry has is a property of the
    whole breakdown, also where a repeated category overwrites its entry. *)
Lemma category_loop_entries pow (P : string → category_entry → Prop) cats :
  ∀ age_data region_data w_age w_reg salary avg_income bc te ta bc' te' ta',
  (∀ cat sc,
     _scale_expenditure pow
       (w_age * Py.get age_data cat 0 + w_reg * Py.get region_data cat 0)
       salary avg_income (Py.get INCOME_ELASTICITY cat 1) = Ok sc →
     P cat (entry_for age_data region_data w_age w_reg cat sc)) →
  (∀ cat e, bc !! cat = Some e → P cat e) →
  category_loop pow cats age_data region_data w_age w_reg salary avg_income
    (bc, te, ta) = Ok (bc', te', ta') →
  ∀ cat e, bc' !! cat = Some e → P cat e.
Proof.
  induction cats as [|c rest IH];
    intros age_data region_data w_age w_reg salary avg_income
      bc te ta bc' te' ta' Hstep Hbc.
  - intros [= <- _ _]. exact Hbc.
  - cbn [category_loop]. intros Hrun.
    apply bind_Ok in Hrun as (sc & Hsc & Hrun).
    eapply IH; [exact Hstep | | exact Hrun].
    intros cat e. rewrite lookup_insert. case_decide as Hc.
    + intros [= <-]. subst cat. apply (Hstep c sc Hsc).
    + apply Hbc.
Qed.

Lemma category_loop_dom pow cats :
  ∀ age_data region_data w_age w_reg salary avg_income bc te ta bc' te' ta',
  category_loop pow cats age_data region_data w_age w_reg salary avg_income
    (bc, te, ta) = Ok (bc', te', ta') →
  dom bc' =@{gset string} dom bc ∪ list_to_set cats.
Proof.
  induction cats as [|c rest IH];
    intros age_data region_data w_age w_reg salary avg_income
      bc te ta bc' te' ta'.
  - intros [= <- _ _]. cbn. set_solver.
  - cbn [category_loop]. intros Hrun.
    apply bind_Ok in Hrun as (sc & Hsc & Hrun).
    apply IH in Hrun. rewrite Hrun, dom_insert_L. cbn. set_solver.
Qed.

(** X13: the breakdown of a result of [compute_essential_expenses] has
    exactly the categories of the table's list as keys; the value
    [get_essential_breakdown] gives for a category is the essential amount
    of its entry, and every entry carries its category's two coefficients
    with essential = scaled * alpha. *)
Theorem essential_breakdown_keys_values (pow : Qc → Qc → Qc) (salary : Qc)
    (age : Z) (state : string) (data : exp_data) (use_region_blend : bool)
    (res : expenses) :
  compute_essential_expenses pow salary age state data use_region_blend
    = Ok res →
  dom (get_essential_breakdown res)
    =@{gset string} list_to_set (categories data)
  ∧ ∀ cat v, get_essential_breakdown res !! cat = Some v →
      ∃ e, by_category res !! cat = Some e ∧ v = essential e
           ∧ entry_consistent cat e.
Proof.
  intros Hrun.
  apply essential_expenses_inv in Hrun
    as (row_a & row_r & te & ta & _ & _ & Hloop & _ & _).
  unfold get_essential_breakdown. split.
  - rewrite dom_fmap_L, (category_loop_dom _ _ _ _ _ _ _ _ _ _ _ _ _ _ Hloop).
    rewrite dom_empty_L. set_solver.
  - intros cat v. rewrite lookup_fmap.
    destruct (by_category res !! cat) as [e|] eqn:Ee; [| discriminate].
    intros [= <-]. exists e. split; [reflexivity | split; [reflexivity |]].
    revert cat e Ee.
    eapply (category_loop_entries pow entry_consistent); [| | exact Hloop].
    + intros cat sc _. repeat split.
    + intros cat e. rewrite lookup_empty. discriminate.
Qed.

Lemma essential_breakdown_keys_values_witness :
  ∃ res,
    compute_essential_expenses pow_trunc (Q2Qc 60000) 30 "Texas" sample_data
      true = Ok res
    ∧ dom (get_essential_breakdown res)
      =@{gset string} list_to_set (categories sample_data)
    ∧ ∀ cat v, get_essential_breakdown res !! cat = Some v →
        ∃ e, by_category res !! cat = Some e ∧ v = essential e
             ∧ entry_consistent cat e.
Proof.
  assert (∃ res, compute_essential_expenses pow_trunc (Q2Qc 60000) 30 "Texas"
                   sample_data true = Ok res ∧ True) as (res & E & _)
    by (apply ok_with; vm_compute; exact I).
  exists res. split; [exact E |].
  exact (essential_breakdown_keys_values pow_trunc (Q2Qc 60000) 30 "Texas"
           sample_data true res E).
Defined.

Lemma scale_unscaled pow bls_amount salary avg_income beta sc :
  pow_one_l pow →
  salary ≤ 0 ∨ avg_income ≤ 0 ∨ avg_income = salary →
  _scale_expenditure pow bls_amount salary avg_income beta = Ok sc →
  sc = bls_amount.
Proof.
  intros Hpow Hcase Hrun.
  destruct (decide (avg_income ≤ 0 ∨ salary ≤ 0)) as [Hg|Hg].
  - unfold _scale_expenditure in Hrun.
    case_decide; [| contradiction]. injection Hrun as <-. reflexivity.
  - destruct Hcase as [Hs | [Ha | ->]]; [exfalso; tauto | exfalso; tauto |].
    assert (Hpos : 0 < salary) by (apply Qcnot_le_lt; tauto).
    rewrite (scale_at_reference pow _ _ _ Hpow Hpos) in Hrun.
    injection Hrun as <-. reflexivity.
Qed.

(** X14: the Engel identity holds for the whole engine: when the salary is
    the reference income of the age group, or the salary or the reference
    income is not positive, every category's scaled amount is its blended
    baseline and its essential amount is that baseline times alpha. *)
Theorem scaling_identity_in_engine (pow : Qc → Qc → Qc) (salary : Qc)
    (age : Z) (state : string) (data : exp_data) (use_region_blend : bool)
    (res : expenses) :
  pow_one_l pow →
  compute_essential_expenses pow salary age state data use_region_blend
    = Ok res →
  salary ≤ 0 ∨ avg_income_for_age_group res ≤ 0
  ∨ avg_income_for_age_group res = salary →
  ∀ cat e, by_category res !! cat = Some e →
    scaled e = bls_blended e ∧ essential e = bls_blended e * alpha e.
Proof.
  intros Hpow Hrun Hcase.
  apply essential_expenses_inv in Hrun
    as (row_a & row_r & te & ta & _ & _ & Hloop & _ & _).
  eapply (category_loop_entries pow
            (λ _ e, scaled e = bls_blended e
                    ∧ essential e = bls_blended e * alpha e));
    [| | exact Hloop].
  - intros cat sc Hsc. cbn [entry_for scaled bls_blended essential alpha].
    rewrite (scale_unscaled _ _ _ _ _ _ Hpow Hcase Hsc). split; reflexivity.
  - intros cat e. rewrite lookup_empty. discriminate.
Qed.

Lemma scaling_identity_in_engine_witness :
  ∃ res,
    compute_essential_expenses pow_trunc (Q2Qc 60000) 30 "Texas" sample_data
      true = Ok res
    ∧ ∀ cat e, by_category res !! cat = Some e →
        scaled e = bls_blended e ∧ essential e = bls_blended e * alpha e.
Proof.
  assert (∃ res, compute_essential_expenses pow_trunc (Q2Qc 60000) 30 "Texas"
                   sample_data true = Ok res
                 ∧ avg_income_for_age_group res = Q2Qc 60000)
    as (res & E & Havg)
    by (apply ok_with; vm_compute; apply Qc_is_canon; reflexivity).
  exists res. split; [exact E |].
  apply (scaling_identity_in_engine pow_trunc (Q2Qc 60000) 30 "Texas"
           sample_data true res pow_trunc_one_l E).
  right; right. exact Havg.
Defined.

(** X15: every entry of the breakdown records the table's amounts for the
    resolved age group and region (0 for a category the row lacks) and
    blends them 60/40; with the blend switched off the blended baseline is
    the age group's amount alone. *)
Theorem blended_baseline (pow : Qc → Qc → Qc) (salary : Qc)
    (age : Z) (state : string) (data : exp_data) (use_region_blend : bool)
    (res : expenses) :
  compute_essential_expenses pow salary age state data use_region_blend
    = Ok res →
  ∃ row_a row_r,
    by_age data !! age_group res = Some row_a
    ∧ by_region data !! region res = Some row_r
    ∧ ∀ cat e, by_category res !! cat = Some e →
        bls_age e = Py.get row_a cat 0
        ∧ bls_region e = Py.get row_r cat 0
        ∧ bls_blended e
          = (if use_region_blend
             then Q2Qc 0.6 * bls_age e + Q2Qc 0.4 * bls_region e
             else bls_age e).
Proof.
  intros Hrun.
  apply essential_expenses_inv in Hrun
    as (row_a & row_r & te & ta & Ea & Er & Hloop & _ & _).
  exists row_a, row_r. split; [exact Ea | split; [exact Er |]].
  eapply (category_loop_entries pow
            (λ cat e, bls_age e = Py.get row_a cat 0
                      ∧ bls_region e = Py.get row_r cat 0
                      ∧ bls_blended e
                        = (if use_region_blend
                           then Q2Qc 0.6 * bls_age e + Q2Qc 0.4 * bls_region e
                           else bls_age e)));
    [| | exact Hloop].
  - intros cat sc _. cbn [entry_for bls_age bls_region bls_blended].
    split; [reflexivity | split; [reflexivity |]].
    destruct use_region_blend; cbn [blend_w_age blend_w_reg];
      [reflexivity |].
    generalize (Py.get row_a cat 0) (Py.get row_r cat 0). intros x y.
    qc_push. ring.
  - intros cat e. rewrite lookup_empty. discriminate.
Qed.

Lemma blended_baseline_witness :
  ∃ res row_a row_r,
    compute_essential_expenses pow_trunc (Q2Qc 60000) 30 "Texas" sample_data
      false = Ok res
    ∧ by_age sample_data !! age_group res = Some row_a
    ∧ by_region sample_data !! region res = Some row_r
    ∧ ∀ cat e, by_category res !! cat = Some e →
        bls_age e = Py.get row_a cat 0
        ∧ bls_region e = Py.get row_r cat 0
        ∧ bls_blended e = (if false
             then Q2Qc 0.6 * bls_age e + Q2Qc 0.4 * bls_region e
             else bls_age e).
Proof.
  assert (∃ res, compute_essential_expenses pow_trunc (Q2Qc 60000) 30 "Texas"
                   sample_data false = Ok res ∧ True) as (res & E & _)
    by (apply ok_with; vm_compute; exact I).
  destruct (blended_baseline pow_trunc (Q2Qc 60000) 30 "Texas" sample_data
              false res E) as (row_a & row_r & H).
  exists res, row_a, row_r. split; [exact E | exact H].
Defined.


(* ===================================================================== *)
(** * Monotonicity of the state tax and of the taxes total                 *)
(* ===================================================================== *)

Lemma rates_ascending_head_le a ra tail :
  rates_ascending ((a, ra) :: tail) → Forall (λ p, ra ≤ p.2) tail.
Proof.
  revert a ra. induction tail as [|[b rb] tail IH]; intros a ra Hasc;
    [constructor |].
  destruct Hasc as [Hab Htail]. constructor; [exact Hab |].
  eapply Forall_impl; [apply (IH b rb Htail) |].
  intros p Hp. simpl in Hp. eapply Qcle_trans; eassumption.
Qed.

Lemma interpolate_loop_ge lo schedule income r :
  Forall (λ p, lo ≤ p.2) schedule →
  interpolate_loop schedule income = Ok r → lo ≤ r.
Proof.
  induction schedule as [|[a ra] tail IH]; intros Hall Hrun; [discriminate |].
  apply Forall_cons in Hall as [Hra Htail]. simpl in Hra.
  destruct tail as [|[b rb] tail'].
  - injection Hrun as <-. assumption.
  - cbn [interpolate_loop] in Hrun.
    pose proof Htail as Htail'.
    apply Forall_cons in Htail' as [Hrb _]. simpl in Hrb.
    case_decide as Hseg; [| apply IH; assumption].
    destruct Hseg as [Hlo Hhi].
    case_decide as Heq; [injection Hrun as <-; assumption |].
    rewrite div_ok in Hrun by (intros E; apply Heq; qc_lra).
    cbn [mbind result_bind Py.bind] in Hrun. injection Hrun as <-.
    assert (Hab : a < b) by qc_lra.
    set (f := (income - a) / (b - a)).
    assert (Hf : 0 ≤ f ∧ f ≤ 1).
    { subst f. split; qc_push;
        [apply Qle_shift_div_l | apply Qle_shift_div_r]; lra. }
    destruct Hf as [Hf0 Hf1]. clearbody f.
    assert (0 ≤ (1 - f) * (ra - lo)) by (apply mult_nonneg; qc_lra).
    assert (0 ≤ f * (rb - lo)) by (apply mult_nonneg; qc_lra).
    clear -H H0. qc_lra.
Qed.

(** With thresholds and rates that do not decrease, the interpolated rate
    does not decrease with the income, from the first threshold on. *)
Lemma interpolate_loop_mono schedule : ∀ x y rx ry,
  ascending schedule → rates_ascending schedule →
  (∀ a ra rest, schedule = (a, ra) :: rest → a ≤ x) →
  x ≤ y →
  interpolate_loop schedule x = Ok rx →
  interpolate_loop schedule y = Ok ry →
  rx ≤ ry.
Proof.
  induction schedule as [|[a ra] tail IH];
    intros x y rx ry Hasc Hrates Hfirst Hxy Hx Hy; [discriminate |].
  specialize (Hfirst a ra tail eq_refl) as Hax.
  destruct tail as [|[b rb] tail'].
  - injection Hx as <-. injection Hy as <-. apply Qcle_refl.
  - pose proof (rates_ascending_head_le _ _ _ Hrates) as Hge.
    destruct Hasc as [Hab Hasc']. destruct Hrates as [Hrab Hrates'].
    cbn [interpolate_loop] in Hx, Hy.
    destruct (decide (a ≤ x ∧ x ≤ b)) as [[_ Hxb]|Hnx];
      destruct (decide (a ≤ y ∧ y ≤ b)) as [[_ Hyb]|Hny];
      destruct (decide (b = a)) as [Heq|Hne].
    + (* both in a zero-width first segment *)
      injection Hx as <-. injection Hy as <-. apply Qcle_refl.
    + (* both in the first segment *)
      rewrite div_ok in Hx by (intros E; apply Hne; qc_lra).
      rewrite div_ok in Hy by (intros E; apply Hne; qc_lra).
      cbn [mbind result_bind Py.bind] in Hx, Hy.
      injection Hx as <-. injection Hy as <-.
      assert (Hab' : a < b) by qc_lra.
      assert (Hfr : (x - a) / (b - a) ≤ (y - a) / (b - a))
        by (apply div_le_mono_pos; qc_lra).
      set (fx := (x - a) / (b - a)) in *.
      set (fy := (y - a) / (b - a)) in *. clearbody fx fy.
      assert (0 ≤ (fy - fx) * (rb - ra)) by (apply mult_nonneg; qc_lra).
      clear -H. qc_lra.
    + (* x at a zero-width first segment, y beyond it *)
      injection Hx as <-. eapply Qcle_trans; [exact Hrab |].
      apply (interpolate_loop_ge rb ((b, rb) :: tail') y ry); [| exact Hy].
      constructor; [apply Qcle_refl |].
      apply (rates_ascending_head_le b rb tail' Hrates').
    + (* x in the first segment, y beyond it *)
      rewrite div_ok in Hx by (intros E; apply Hne; qc_lra).
      cbn [mbind result_bind Py.bind] in Hx. injection Hx as <-.
      apply Qcle_trans with rb.
      * assert (Hab' : a < b) by qc_lra.
        set (f := (x - a) / (b - a)).
        assert (Hf : 0 ≤ f ∧ f ≤ 1).
        { subst f. split; qc_push;
            [apply Qle_shift_div_l | apply Qle_shift_div_r]; lra. }
        destruct Hf as [Hf0 Hf1]. clearbody f.
        assert (0 ≤ (1 - f) * (rb - ra)) by (apply mult_nonneg; qc_lra).
        clear -H. qc_lra.
      * apply (interpolate_loop_ge rb ((b, rb) :: tail') y ry); [| exact Hy].
        constructor; [apply Qcle_refl |].
        apply (rates_ascending_head_le b rb tail' Hrates').
    + exfalso. apply Hnx. split; [exact Hax | qc_lra].
    + exfalso. apply Hnx. split; [exact Hax | qc_lra].
    + (* both beyond a zero-width first segment *)
      assert (Hbx : b < x)
        by (apply Qcnot_le_lt; intros Hxb; apply Hnx; split; assumption).
      apply (IH x y rx ry Hasc' Hrates'); try assumption.
      intros a' ra' rest' [= <- _ _]. apply Qclt_le_weak, Hbx.
    + (* both beyond the first segment *)
      assert (Hbx : b < x)
        by (apply Qcnot_le_lt; intros Hxb; apply Hnx; split; assumption).
      apply (IH x y rx ry Hasc' Hrates'); try assumption.
      intros a' ra' rest' [= <- _ _]. apply Qclt_le_weak, Hbx.
Qed.

Lemma interpolate_rate_mono schedule x y rx ry :
  ascending schedule → rates_ascending schedule →
  (∀ a ra rest, schedule = (a, ra) :: rest → a ≤ x) →
  x ≤ y →
  _interpolate_rate schedule x = Ok rx →
  _interpolate_rate schedule y = Ok ry →
  rx ≤ ry.
Proof.
  intros Hasc Hrates Hfirst Hxy. unfold _interpolate_rate.
  destruct schedule as [|[a ra] [|p tail]];
    apply (interpolate_loop_mono _ x y rx ry Hasc Hrates Hfirst Hxy).
Qed.

Lemma schedule_table_shape :
  Forall (λ item, rates_ascending item.2 ∧ starts_at_zero item.2)
    STATE_TAX_SCHEDULE_items.
Proof.
  unfold STATE_TAX_SCHEDULE_items.
  forall_items ltac:(
    cbn [snd]; split;
    [ cbn [rates_ascending bp]; repeat split; qc_eval
    | eexists _, _; unfold bp; f_equal; f_equal; qc_eval ]).
Qed.

Lemma state_rate_mono state schedule a b ra rb :
  STATE_TAX_SCHEDULE !! state = Some schedule → 0 ≤ a → a ≤ b →
  _interpolate_rate schedule a = Ok ra →
  _interpolate_rate schedule b = Ok rb →
  ra ≤ rb.
Proof.
  intros Hlook Ha Hab Hra Hrb.
  destruct (schedule_lookup_facts _ _ Hlook) as (_ & Hasc & _).
  assert (Hshape : rates_ascending schedule ∧ starts_at_zero schedule).
  { pose proof schedule_table_shape as Hall. rewrite Forall_forall in Hall.
    apply (Hall (state, schedule)), elem_of_list_to_map_2, Hlook. }
  destruct Hshape as [Hrates (r0 & rest0 & Hzero)].
  apply (interpolate_rate_mono schedule a b ra rb Hasc Hrates);
    try assumption.
  intros a' ra' rest' E. rewrite Hzero in E. injection E as <- _ _.
  exact Ha.
Qed.

Lemma scaled_cents_mono (a b ra rb : Qc) :
  0 ≤ a → a ≤ b → 0 ≤ ra → ra ≤ rb →
  Py.round (a * ra) 2 ≤ Py.round (b * rb) 2.
Proof.
  intros Ha Hab Hra Hrr. apply round_mono.
  assert (0 ≤ (b - a) * ra) by (apply mult_nonneg; [qc_lra | assumption]).
  assert (0 ≤ b * (rb - ra)) by (apply mult_nonneg; qc_lra).
  clear -H H0. qc_lra.
Qed.

(** X17: for every state of the table the state tax does not decrease when
    the gross income rises: the schedules' thresholds and rates ascend, the
    interpolated effective rate ascends with them, and so does income times
    rate, rounded to cents. *)
Theorem state_tax_monotone (state : string) (a b : Qc) :
  is_Some (STATE_TAX_SCHEDULE !! state) → 0 ≤ a → a ≤ b →
  ∃ tax_a tax_b,
    compute_state_tax a state = Ok tax_a
    ∧ compute_state_tax b state = Ok tax_b
    ∧ tax_a ≤ tax_b.
Proof.
  intros [schedule Hlook] Ha Hab.
  destruct (state_tax_run state schedule a Hlook)
    as (ra & Hra & Hra0 & _ & Hta).
  destruct (state_tax_run state schedule b Hlook)
    as (rb & Hrb & _ & _ & Htb).
  eexists _, _. split; [exact Hta | split; [exact Htb |]].
  apply scaled_cents_mono; try assumption.
  apply (state_rate_mono state schedule a b); assumption.
Qed.

Lemma state_tax_monotone_witness :
  ∃ tax_a tax_b,
    compute_state_tax (Q2Qc 17000) "Virginia" = Ok tax_a
    ∧ compute_state_tax (Q2Qc 17001) "Virginia" = Ok tax_b
    ∧ tax_a ≤ tax_b.
Proof.
  apply (state_tax_monotone "Virginia" (Q2Qc 17000) (Q2Qc 17001)).
  - by_eval.
  - qc_eval.
  - qc_eval.
Defined.

(** X18: the taxes total of [compute_all_taxes] does not decrease when the
    gross income rises, for every state of the table: the federal tax, the
    FICA total and the state tax each ascend, and the total is their exact
    sum. *)
Theorem total_tax_monotone (state : string) (a b : Qc) :
  is_Some (STATE_TAX_SCHEDULE !! state) → 0 ≤ a → a ≤ b →
  ∃ ta tb,
    compute_all_taxes a state = Ok ta
    ∧ compute_all_taxes b state = Ok tb
    ∧ total ta ≤ total tb.
Proof.
  intros [schedule Hlook] Ha Hab.
  destruct (state_tax_run state schedule a Hlook)
    as (ra & Hra & Hra0 & _ & Hsa).
  destruct (state_tax_run state schedule b Hlook)
    as (rb & Hrb & _ & _ & Hsb).
  destruct (all_taxes_sum _ _ _ Hsa (cents_round _)) as (ta & Hta & Etota).
  destruct (all_taxes_sum _ _ _ Hsb (cents_round _)) as (tb & Htb & Etotb).
  exists ta, tb. split; [exact Hta | split; [exact Htb |]].
  rewrite Etota, Etotb.
  pose proof (federal_tax_mono a b Hab) as Hfed.
  pose proof (fica_total_mono a b Hab) as Hfica.
  assert (Hst : Py.round (a * ra) 2 ≤ Py.round (b * rb) 2).
  { apply scaled_cents_mono; try assumption.
    apply (state_rate_mono state schedule a b); assumption. }
  set (fa := compute_federal_tax a) in *. set (fb := compute_federal_tax b) in *.
  set (ca := fica_total (compute_fica a)) in *.
  set (cb := fica_total (compute_fica b)) in *.
  set (sa := Py.round (a * ra) 2) in *. set (sb := Py.round (b * rb) 2) in *.
  clearbody fa fb ca cb sa sb. clear -Hfed Hfica Hst. qc_lra.
Qed.

Lemma total_tax_monotone_witness :
  ∃ ta tb,
    compute_all_taxes (Q2Qc 60000) "New York" = Ok ta
    ∧ compute_all_taxes (Q2Qc 100000) "New York" = Ok tb
    ∧ total ta ≤ total tb.
Proof.
  apply (total_tax_monotone "New York" (Q2Qc 60000) (Q2Qc 100000)).
  - by_eval.
  - qc_eval.
  - qc_eval.
Defined.
